(** * Room registry and broadcast relay of the chat server

    A shallow embedding of the WebSocket relay server (the second document
    of [src/Frontend/src/App.tsx], from [import { WebSocketServer, ... }]
    onwards): the two process-wide tables [rooms] and [roomMetadata], the
    [message] and [close] handlers installed on every socket, and the
    [setInterval] sweep.

    The server is single threaded: every handler runs to completion before
    the next one starts.  A handler is therefore a function from the
    registry state to a new state and the list of frames it sent, in the
    order of the [send] calls.  What the handler reads from its
    environment (the clock, the [readyState] of the sockets, [Math.random])
    is passed in as an [Env]. *)

From Stdlib Require Import ZArith Ascii String.
From stdpp Require Import gmap strings list fin_maps.

Open Scope string_scope.
Open Scope Z_scope.
Open Scope nat_scope.
Open Scope list_scope.
Open Scope stdpp_scope.

(** ** Data *)

(** A socket object ([Client extends WebSocket]) is identified by a number:
    [client === socket] in the source is object identity. *)
Abbreviation Client := nat (only parsing).

(** The value [JSON.parse] returns.  A number carries no information the
    handlers use apart from not being a string, so its payload is kept as
    an integer. *)
#[warnings="-register-all"]
Inductive json : Type :=
| JNull
| JBool (b : bool)
| JNum (n : Z)
| JStr (s : string)
| JArr (items : list json)
| JObj (fields : list (string * json)).

(** [typeof v] *)
Definition typeof (v : json) : string :=
  match v with
  | JNull => "object"
  | JBool _ => "boolean"
  | JNum _ => "number"
  | JStr _ => "string"
  | JArr _ => "object"
  | JObj _ => "object"
  end.

(** JavaScript truthiness, as used by [!message], [customRoomId && ...]
    and [!joinRoomId]. *)
Definition truthy (v : json) : bool :=
  match v with
  | JNull => false
  | JBool b => b
  | JNum n => negb (n =? 0)%Z
  | JStr s => negb (String.eqb s "")
  | JArr _ => true
  | JObj _ => true
  end.

(** Property lookup in the members of a parsed object: when the text names
    a key twice, [JSON.parse] keeps the last value. *)
Fixpoint assoc_last (name : string) (fields : list (string * json)) : option json :=
  match fields with
  | [] => None
  | (k, v) :: rest =>
      match assoc_last name rest with
      | Some w => Some w
      | None => if String.eqb k name then Some v else None
      end
  end.

(** [message.name]; [None] is [undefined].  None of the names the server
    reads ([type], [roomId], [content], [sender]) is a property of an array
    or of [Object.prototype]. *)
Definition prop (message : json) (name : string) : option json :=
  match message with
  | JObj fields => assoc_last name fields
  | _ => None
  end.

(** [String.prototype.toUpperCase] on strings of ASCII characters, which is
    where the alphabet of room codes lives: the letters a-z become A-Z and
    every other ASCII character is kept.  On such strings ([ascii_only]
    below) this is the function of the source.  JavaScript also maps letters
    outside ASCII; a byte above 127 is kept here as it is, so a statement
    that says which key the server computes from a frame is made for
    [ascii_only] codes. *)
Definition upper_ascii (c : ascii) : ascii :=
  let n := nat_of_ascii c in
  if (97 <=? n) && (n <=? 122) then ascii_of_nat (n - 32) else c.

Fixpoint toUpperCase (s : string) : string :=
  match s with
  | EmptyString => EmptyString
  | String c rest => String (upper_ascii c) (toUpperCase rest)
  end.

(** The frames the server sends ([JSON.stringify] of an object literal),
    one constructor per [type]. *)
Inductive ServerMsg : Type :=
| RoomCreated (roomId : string) (userCount : nat)
| JoinedRoom (roomId : string)
| UserCountUpdate (userCount : nat)
| ChatMessage (content sender : string) (isOwnMessage : bool)
| ErrorMsg (message : string).

(** The value of [roomMetadata[roomId]]; a [Date] is its [getTime()]. *)
Record Metadata : Type := mkMetadata {
  created : Z;
  lastActivity : Z
}.

(** The mutable store shared by all handlers: the two tables and the
    [roomId] field of every socket object.  A [Set<Client>] is the list of
    its elements in insertion order, which is the order [forEach] visits
    them in.  The tables are plain objects used as maps; every key they are
    read or written at is an uppercased string or a generated code, and no
    such string names a property inherited from [Object.prototype]. *)
Record State : Type := mkState {
  rooms : gmap string (list Client);
  roomMetadata : gmap string Metadata;
  socketRoomId : gmap Client string
}.

Definition initial : State :=
  {| rooms := ∅; roomMetadata := ∅; socketRoomId := ∅ |}.

(** What a handler reads from outside the registry while it runs:
    [new Date().getTime()], [client.readyState === WebSocket.OPEN] and the
    successive values of [Math.floor(Math.random() * chars.length)]. *)
Record Env : Type := mkEnv {
  now : Z;
  isOpen : Client → bool;
  draws : list nat
}.

(** ** [Set] operations *)

(** [set.add(c)]: appended unless already present. *)
Definition set_add (c : Client) (members : list Client) : list Client :=
  if decide (c ∈ members) then members else members ++ [c].

(** [set.delete(c)] *)
Definition set_delete (c : Client) (members : list Client) : list Client :=
  filter (λ m, m ≠ c) members.

(** ** Table operations *)

(** [if (!rooms[k]) rooms[k] = new Set()] *)
Definition ensure_room (k : string) (rs : gmap string (list Client)) : gmap string (list Client) :=
  match rs !! k with
  | Some _ => rs
  | None => <[k := []]> rs
  end.

(** [rooms[k].add(socket)] *)
Definition add_member (k : string) (socket : Client) (rs : gmap string (list Client)) : gmap string (list Client) :=
  alter (set_add socket) k rs.

(** [rooms[k].size] *)
Definition room_size (k : string) (rs : gmap string (list Client)) : nat :=
  length (default [] (rs !! k)).

(** [rooms[k] || roomMetadata[k]]: a [Set] and a metadata object are both
    truthy, so the test is that one of the entries exists. *)
Definition room_known (k : string) (st : State) : bool :=
  bool_decide (is_Some (rooms st !! k)) || bool_decide (is_Some (roomMetadata st !! k)).

(** [if (client.readyState === WebSocket.OPEN) client.send(m)] *)
Definition send (env : Env) (client : Client) (m : ServerMsg) : list (Client * ServerMsg) :=
  if isOpen env client then [(client, m)] else [].

(** [set.forEach(client => { if (client.readyState === OPEN) client.send(m client) })] *)
Definition broadcast (env : Env) (members : list Client) (m : Client → ServerMsg) : list (Client * ServerMsg) :=
  members ≫= (λ client, send env client (m client)).

(** ** Code generator *)

Definition chars : string := "ABCDEFGHIJKLMNOPQRSTUVWXYZ0123456789".

(** [s.charAt(i)] *)
Definition charAt (s : string) (i : nat) : string :=
  match String.get i s with
  | Some c => String c EmptyString
  | None => EmptyString
  end.

(** [generateShortCode]: six draws, each an index below [chars.length].
    Returns the code and the draws that remain; [None] when the supplied
    draws run out. *)
Definition generateShortCode (ds : list nat) : option (string * list nat) :=
  if decide (6 ≤ length ds)
  then Some (foldl (λ result d, result +:+ charAt chars (d mod String.length chars)) "" (take 6 ds),
             drop 6 ds)
  else None.

(** [newRoomId = generateShortCode();
     while (rooms[newRoomId] || roomMetadata[newRoomId]) newRoomId = generateShortCode();] *)
Fixpoint fresh_code (fuel : nat) (ds : list nat) (st : State) : option string :=
  match fuel with
  | 0 => None
  | S fuel' =>
      match generateShortCode ds with
      | None => None
      | Some (code, rest) =>
          if room_known code st then fresh_code fuel' rest st else Some code
      end
  end.

(** ** The [message] handler *)

(** The [create-room] case.  [None] only when the draws of the environment
    run out inside the uniqueness loop.  The two [new Date()] of the
    metadata literal are evaluated one after the other in the same turn and
    get the same clock reading. *)
Definition create_room (env : Env) (socket : Client) (message : json) (st : State)
  : option (State * list (Client * ServerMsg)) :=
  newRoomId ← match prop message "roomId" with
              | Some (JStr customRoomId) =>
                  if truthy (JStr customRoomId)
                  then Some (toUpperCase customRoomId)
                  else fresh_code (length (draws env)) (draws env) st
              | _ => fresh_code (length (draws env)) (draws env) st
              end;
  let rooms1 := ensure_room newRoomId (rooms st) in
  let meta1 := <[newRoomId := {| created := now env; lastActivity := now env |}]> (roomMetadata st) in
  let rooms2 := add_member newRoomId socket rooms1 in
  Some ({| rooms := rooms2;
           roomMetadata := meta1;
           socketRoomId := <[socket := newRoomId]> (socketRoomId st) |},
        send env socket (RoomCreated newRoomId (room_size newRoomId rooms2))).

(** [roomMetadata[k].lastActivity = new Date()] *)
Definition touch (t : Z) (m : Metadata) : Metadata :=
  {| created := created m; lastActivity := t |}.

(** The [join-room] case after the check of [roomId]: from
    [const upperRoomId = joinRoomId.toUpperCase()] on. *)
Definition joinRoom (env : Env) (socket : Client) (joinRoomId : string) (st : State)
  : State * list (Client * ServerMsg) :=
  let upperRoomId := toUpperCase joinRoomId in
  if room_known upperRoomId st then
    let rooms1 := ensure_room upperRoomId (rooms st) in
    let rooms2 := add_member upperRoomId socket rooms1 in
    let meta1 := alter (touch (now env)) upperRoomId (roomMetadata st) in
    ({| rooms := rooms2;
        roomMetadata := meta1;
        socketRoomId := <[socket := upperRoomId]> (socketRoomId st) |},
     send env socket (JoinedRoom upperRoomId)
     ++ broadcast env (default [] (rooms2 !! upperRoomId))
          (λ _, UserCountUpdate (room_size upperRoomId rooms2)))
  else
    (st, send env socket (ErrorMsg "Room not found")).

(** The [join-room] case. *)
Definition join_room (env : Env) (socket : Client) (message : json) (st : State)
  : State * list (Client * ServerMsg) :=
  match prop message "roomId" with
  | Some (JStr joinRoomId) =>
      if negb (truthy (JStr joinRoomId))
      then (st, send env socket (ErrorMsg "Invalid room code"))
      else joinRoom env socket joinRoomId st
  | _ => (st, send env socket (ErrorMsg "Invalid room code"))
  end.

(** The [chat-message] case after the check of the three fields: from
    [const upperChatRoomId = roomId.toUpperCase()] on. *)
Definition broadcastChat (env : Env) (socket : Client) (roomId content sender : string) (st : State)
  : State * list (Client * ServerMsg) :=
  let upperChatRoomId := toUpperCase roomId in
  match rooms st !! upperChatRoomId with
  | Some members =>
      (st, broadcast env members
             (λ client, ChatMessage content sender (bool_decide (client = socket))))
  | None => (st, send env socket (ErrorMsg "Room not found"))
  end.

(** The [chat-message] case. *)
Definition chat_message (env : Env) (socket : Client) (message : json) (st : State)
  : State * list (Client * ServerMsg) :=
  match prop message "roomId", prop message "content", prop message "sender" with
  | Some (JStr roomId), Some (JStr content), Some (JStr sender) =>
      broadcastChat env socket roomId content sender st
  | _, _, _ => (st, send env socket (ErrorMsg "Invalid chat message format"))
  end.

(** [socket.on("message", data => ...)].  [data] is the outcome of
    [JSON.parse(data.toString())]: [None] when it throws.  The thrown
    [Error("Invalid message format")] and a parse error end in the same
    [catch].  The [switch] compares [message.type] with [===], so a case is
    taken only by the string itself. *)
Definition on_message (env : Env) (socket : Client) (data : option json) (st : State)
  : option (State * list (Client * ServerMsg)) :=
  match data with
  | None => Some (st, send env socket (ErrorMsg "Invalid message"))
  | Some message =>
      if negb (truthy message) || negb (String.eqb (typeof message) "object")
      then Some (st, send env socket (ErrorMsg "Invalid message"))
      else
        match prop message "type" with
        | Some (JStr type) =>
            if String.eqb type "create-room" then create_room env socket message st
            else if String.eqb type "join-room" then Some (join_room env socket message st)
            else if String.eqb type "chat-message" then Some (chat_message env socket message st)
            else Some (st, send env socket (ErrorMsg "Unknown message type"))
        | _ => Some (st, send env socket (ErrorMsg "Unknown message type"))
        end
  end.

(** ** The [close] handler *)

(** [socket.on("close", ...)] *)
Definition on_close (env : Env) (socket : Client) (st : State)
  : State * list (Client * ServerMsg) :=
  match socketRoomId st !! socket with
  | Some roomId =>
      if truthy (JStr roomId) then
        match rooms st !! roomId with
        | Some _ =>
            let rooms1 := alter (set_delete socket) roomId (rooms st) in
            ({| rooms := rooms1;
                roomMetadata := roomMetadata st;
                socketRoomId := socketRoomId st |},
             if decide (0 < room_size roomId rooms1)
             then broadcast env (default [] (rooms1 !! roomId))
                    (λ _, UserCountUpdate (room_size roomId rooms1))
             else [])
        | None => (st, [])
        end
      else (st, [])
  | None => (st, [])
  end.

(** ** The expiry sweep *)

Definition expireTime : Z := 10 * 60 * 1000.

(** The test of the sweep:
    [(!rooms[roomId] || rooms[roomId].size === 0) && timeSinceActivity > expireTime] *)
Definition expired (t : Z) (roomId : string) (metadata : Metadata) (st : State) : bool :=
  let timeSinceActivity := (t - lastActivity metadata)%Z in
  (bool_decide (rooms st !! roomId = None) || (room_size roomId (rooms st) =? 0))
  && bool_decide (timeSinceActivity > expireTime)%Z.

(** The callback of [Object.keys(roomMetadata).forEach].  The key was read
    from [roomMetadata] before the loop and only its own iteration deletes
    it, so the entry is there; in the other branch the source would throw
    on [metadata.lastActivity]. *)
Definition sweep_room (t : Z) (st : State) (roomId : string) : State :=
  match roomMetadata st !! roomId with
  | Some metadata =>
      if expired t roomId metadata st
      then {| rooms := delete roomId (rooms st);
              roomMetadata := delete roomId (roomMetadata st);
              socketRoomId := socketRoomId st |}
      else st
  | None => st
  end.

(** [Object.keys(roomMetadata)]: every key once.  An iteration touches the
    entries of its own key only, so the order of the keys does not show in
    the outcome ([sweep_lookup] below). *)
Definition metadata_keys (st : State) : list string :=
  (map_to_list (roomMetadata st)).*1.

(** The body of the [setInterval] callback. *)
Definition sweep (env : Env) (st : State) : State :=
  foldl (sweep_room (now env)) st (metadata_keys st).

(** ** The server as a transition system *)

Inductive Event : Type :=
| Message (socket : Client) (data : option json)
| Close (socket : Client)
| Sweep.

Definition step (env : Env) (ev : Event) (st : State) : option (State * list (Client * ServerMsg)) :=
  match ev with
  | Message socket data => on_message env socket data st
  | Close socket => Some (on_close env socket st)
  | Sweep => Some (sweep env st, [])
  end.

(** Runs the events in order and collects everything that was sent. *)
Fixpoint run (trace : list (Env * Event)) (st : State) : option (State * list (Client * ServerMsg)) :=
  match trace with
  | [] => Some (st, [])
  | (env, ev) :: rest =>
      '(st1, out1) ← step env ev st;
      '(st2, out2) ← run rest st1;
      Some (st2, out1 ++ out2)
  end.

Inductive reachable : State → Prop :=
| reachable_initial : reachable initial
| reachable_step st env ev st' out :
    reachable st → step env ev st = Some (st', out) → reachable st'.

(** ** Inbound frames used in the statements *)

Definition create_room_msg (roomId : string) : option json :=
  Some (JObj [("type", JStr "create-room"); ("roomId", JStr roomId)]).

Definition create_room_auto_msg : option json :=
  Some (JObj [("type", JStr "create-room")]).

Definition join_room_msg (roomId : string) : option json :=
  Some (JObj [("type", JStr "join-room"); ("roomId", JStr roomId)]).

Definition chat_msg (roomId content sender : string) : option json :=
  Some (JObj [("type", JStr "chat-message"); ("roomId", JStr roomId);
              ("content", JStr content); ("sender", JStr sender)]).

(** An environment in which every socket is open. *)
Definition env_at (t : Z) : Env :=
  {| now := t; isOpen := λ _, true; draws := [] |}.

(** The membership set of a room code, empty when the code has none. *)
Definition members (k : string) (st : State) : list Client :=
  default [] (rooms st !! k).

(** ** Derived notions used in the statements *)

(** The state and the acknowledgement of [create-room] once the code is
    chosen. *)
Definition created_state (env : Env) (socket : Client) (k : string) (st : State) : State :=
  {| rooms := add_member k socket (ensure_room k (rooms st));
     roomMetadata := <[k := {| created := now env; lastActivity := now env |}]> (roomMetadata st);
     socketRoomId := <[socket := k]> (socketRoomId st) |}.

(** The state of a successful [join-room]. *)
Definition joined_state (env : Env) (socket : Client) (k : string) (st : State) : State :=
  {| rooms := add_member k socket (ensure_room k (rooms st));
     roomMetadata := alter (touch (now env)) k (roomMetadata st);
     socketRoomId := <[socket := k]> (socketRoomId st) |}.

Definition closed_state (socket : Client) (k : string) (st : State) : State :=
  {| rooms := alter (set_delete socket) k (rooms st);
     roomMetadata := roomMetadata st;
     socketRoomId := socketRoomId st |}.

(** A membership set lists every socket once, the room code stored in a
    socket is never the empty string, and a room code with a membership set
    has a metadata entry. *)
Definition wf (st : State) : Prop :=
  (∀ k l, rooms st !! k = Some l → NoDup l)
  ∧ (∀ c k, socketRoomId st !! c = Some k → k ≠ "")
  ∧ (∀ k, is_Some (rooms st !! k) → is_Some (roomMetadata st !! k)).

(** Socket 1 has created [AB12CD] at time 0. *)
Definition one_room_state : State :=
  {| rooms := {[ "AB12CD" := [1] ]};
     roomMetadata := {[ "AB12CD" := {| created := 0; lastActivity := 0 |} ]};
     socketRoomId := {[ 1 := "AB12CD" ]} |}.

(** Socket 1 has created [ROOMAA] and socket 2 has created [ROOMBB]. *)
Definition two_rooms_state : State :=
  {| rooms := {[ "ROOMAA" := [1]; "ROOMBB" := [2] ]};
     roomMetadata := {[ "ROOMAA" := {| created := 0; lastActivity := 0 |};
                        "ROOMBB" := {| created := 1; lastActivity := 1 |} ]};
     socketRoomId := {[ 1 := "ROOMAA"; 2 := "ROOMBB" ]} |}.

(** Then socket 1 has joined [ROOMBB]: it is bound to [ROOMBB] and listed
    in both rooms. *)
Definition rejoin_state : State :=
  {| rooms := {[ "ROOMAA" := [1]; "ROOMBB" := [2; 1] ]};
     roomMetadata := {[ "ROOMAA" := {| created := 0; lastActivity := 0 |};
                        "ROOMBB" := {| created := 1; lastActivity := 2 |} ]};
     socketRoomId := {[ 1 := "ROOMBB"; 2 := "ROOMBB" ]} |}.

(** The reading of "a connection belongs to at most one room at a time":
    no socket is listed in the membership sets of two room codes. *)
Definition one_room_per_connection (st : State) : Prop :=
  ∀ c k1 k2, c ∈ members k1 st → c ∈ members k2 st → k1 = k2.

(** A chat frame is flagged as the recipient's own. *)
Definition flagged_own (d : Client * ServerMsg) : bool :=
  match d.2 with
  | ChatMessage _ _ isOwnMessage => isOwnMessage
  | _ => false
  end.

(** The deliveries flagged [isOwnMessage = true]. *)
Definition own_deliveries (out : list (Client * ServerMsg)) : list (Client * ServerMsg) :=
  filter (λ d, flagged_own d = true) out.

(** The reading of "lastActivityAt is updated to the delivery time on every
    successful chat-message delivery". *)
Definition chat_touches_activity : Prop :=
  ∀ st env socket roomId content sender st' out l,
    reachable st →
    rooms st !! toUpperCase roomId = Some l →
    on_message env socket (chat_msg roomId content sender) st = Some (st', out) →
    ∀ m, roomMetadata st' !! toUpperCase roomId = Some m → lastActivity m = now env.

(** Sockets 1 and 3 are listed in [ROOMAA], sockets 2 and 1 in [ROOMBB];
    socket 1 is bound to [ROOMBB]. *)
Definition crossed_state : State :=
  {| rooms := {[ "ROOMAA" := [1; 3]; "ROOMBB" := [2; 1] ]};
     roomMetadata := {[ "ROOMAA" := {| created := 0; lastActivity := 3 |};
                        "ROOMBB" := {| created := 1; lastActivity := 2 |} ]};
     socketRoomId := {[ 1 := "ROOMBB"; 2 := "ROOMBB"; 3 := "ROOMAA" ]} |}.

(** The reading of "a chat-message sent in room A is never delivered to a
    connection whose bound room is B ≠ A". *)
Definition chat_isolation : Prop :=
  ∀ st env socket roomId content sender st' out c B ct sd own,
    reachable st →
    on_message env socket (chat_msg roomId content sender) st = Some (st', out) →
    socketRoomId st !! c = Some B → B ≠ toUpperCase roomId →
    (c, ChatMessage ct sd own) ∉ out.

(** The reading of "for every broadcast chat message exactly one recipient,
    the originating connection, receives isOwnMessage = true". *)
Definition self_flagging : Prop :=
  ∀ st env socket roomId content sender st' out l,
    reachable st →
    rooms st !! toUpperCase roomId = Some l →
    on_message env socket (chat_msg roomId content sender) st = Some (st', out) →
    own_deliveries out = [(socket, ChatMessage content sender true)].

(** ** Notions used in the further properties *)

(** The texts of the [error] frames of the server. *)
Definition error_texts : list string :=
  ["Invalid message"; "Unknown message type"; "Invalid room code";
   "Room not found"; "Invalid chat message format"].

(** The characters of a string, in order. *)
Fixpoint string_chars (s : string) : list ascii :=
  match s with
  | EmptyString => []
  | String c rest => c :: string_chars rest
  end.

(** The string has ASCII characters only. *)
Definition ascii_only (s : string) : Prop :=
  Forall (λ c, nat_of_ascii c < 128) (string_chars s).

(** The frames handed to the [send] of socket [c], in order. *)
Definition inbox (c : Client) (out : list (Client * ServerMsg)) : list ServerMsg :=
  (filter (λ d, d.1 = c) out).*2.

(** The two tables have the same keys, every key and every room code
    stored in a socket is a non-empty string that [toUpperCase] leaves as it
    is, and every socket listed in a membership set has a [roomId]. *)
Definition registry_inv (st : State) : Prop :=
  (∀ k, is_Some (roomMetadata st !! k) → is_Some (rooms st !! k))
  ∧ (∀ k, is_Some (rooms st !! k) → toUpperCase k = k ∧ k ≠ "")
  ∧ (∀ c k, socketRoomId st !! c = Some k → toUpperCase k = k ∧ k ≠ "")
  ∧ (∀ k c, c ∈ members k st → is_Some (socketRoomId st !! c)).

(** ** The client: what the page does with the frames it receives *)

(** [currentScreen] of the [App] component. *)
Inductive Screen : Type :=
| ScreenWelcome
| ScreenRoomCreated
| ScreenChat.

(** The state of the [App] component that its [onmessage] handlers write
    ([useState] of [currentScreen], [roomCode], [messages], [error],
    [userCount]). *)
Record UI : Type := mkUI {
  currentScreen : Screen;
  roomCode : string;
  messages : list ServerMsg;
  error : option string;
  userCount : nat
}.

(** [socket.onmessage] installed by [connectToWebSocket], on a frame of the
    server ([JSON.parse] of the text the server made with
    [JSON.stringify]).  [if (data.roomId)] and [if (data.userCount)] are
    truthiness tests, [data.message || 'Server error'] falls back on an
    empty text, and [setUserCount(prev => Math.max(prev, 2))] is the
    maximum. *)
Definition creator_onmessage (ui : UI) (data : ServerMsg) : UI :=
  match data with
  | RoomCreated roomId _ =>
      {| currentScreen := currentScreen ui;
         roomCode := if truthy (JStr roomId) then roomId else roomCode ui;
         messages := messages ui;
         error := error ui;
         userCount := 1 |}
  | JoinedRoom _ =>
      {| currentScreen := currentScreen ui;
         roomCode := roomCode ui;
         messages := messages ui;
         error := error ui;
         userCount := Nat.max (userCount ui) 2 |}
  | ChatMessage _ _ _ =>
      {| currentScreen := currentScreen ui;
         roomCode := roomCode ui;
         messages := messages ui ++ [data];
         error := error ui;
         userCount := userCount ui |}
  | UserCountUpdate n =>
      if n =? 0 then ui
      else {| currentScreen := currentScreen ui;
              roomCode := roomCode ui;
              messages := messages ui;
              error := error ui;
              userCount := n |}
  | ErrorMsg message =>
      {| currentScreen := currentScreen ui;
         roomCode := roomCode ui;
         messages := messages ui;
         error := Some (if truthy (JStr message) then message else "Server error");
         userCount := userCount ui |}
  end.

(** [socket.onmessage] installed by [joinRoom]; it has no case for
    [room-created]. *)
Definition joiner_onmessage (ui : UI) (data : ServerMsg) : UI :=
  match data with
  | RoomCreated _ _ => ui
  | JoinedRoom _ =>
      {| currentScreen := ScreenChat;
         roomCode := roomCode ui;
         messages := messages ui;
         error := error ui;
         userCount := 2 |}
  | ChatMessage _ _ _ =>
      {| currentScreen := currentScreen ui;
         roomCode := roomCode ui;
         messages := messages ui ++ [data];
         error := error ui;
         userCount := userCount ui |}
  | UserCountUpdate n =>
      if n =? 0 then ui
      else {| currentScreen := currentScreen ui;
              roomCode := roomCode ui;
              messages := messages ui;
              error := error ui;
              userCount := n |}
  | ErrorMsg message =>
      {| currentScreen := ScreenWelcome;
         roomCode := "";
         messages := messages ui;
         error := Some (if truthy (JStr message) then message else "Room not found");
         userCount := userCount ui |}
  end.

(** A [close] event. *)
Definition is_close (step : Env * Event) : bool :=
  match step.2 with
  | Close _ => true
  | _ => false
  end.

(** The value [JSON.parse] returned is an object or an array. *)
Definition is_object (v : json) : bool :=
  match v with
  | JArr _ | JObj _ => true
  | _ => false
  end.

(** ** Properties of the [Set] operations *)

Lemma elem_of_set_add (x c : Client) (l : list Client) :
  x ∈ set_add c l ↔ x = c ∨ x ∈ l.
Proof.
  unfold set_add. destruct (decide (c ∈ l)) as [Hin|Hnin].
  - split; [by right | by intros [->|?]].
  - rewrite elem_of_app, list_elem_of_singleton. tauto.
Qed.

Lemma NoDup_set_add (c : Client) (l : list Client) : NoDup l → NoDup (set_add c l).
Proof.
  intros Hl. unfold set_add. destruct (decide (c ∈ l)) as [Hin|Hnin]; [done|].
  apply NoDup_app. split_and!; [done | | apply NoDup_singleton].
  intros x Hx ->%list_elem_of_singleton. done.
Qed.

Lemma elem_of_set_delete (x c : Client) (l : list Client) :
  x ∈ set_delete c l ↔ x ∈ l ∧ x ≠ c.
Proof. unfold set_delete. rewrite list_elem_of_filter. tauto. Qed.

Lemma NoDup_set_delete (c : Client) (l : list Client) : NoDup l → NoDup (set_delete c l).
Proof. apply NoDup_filter. Qed.

(** ** Properties of the table operations *)

Lemma lookup_ensure_room_eq (k : string) (rs : gmap string (list Client)) :
  ensure_room k rs !! k = Some (default [] (rs !! k)).
Proof.
  unfold ensure_room. destruct (rs !! k) eqn:E; simpl; [done|].
  by rewrite lookup_insert_eq.
Qed.

Lemma lookup_ensure_room_ne (k k' : string) (rs : gmap string (list Client)) :
  k ≠ k' → ensure_room k rs !! k' = rs !! k'.
Proof.
  intros Hne. unfold ensure_room. destruct (rs !! k); [done|].
  by rewrite lookup_insert_ne.
Qed.

Lemma lookup_add_ensure_eq (k : string) (c : Client) (rs : gmap string (list Client)) :
  add_member k c (ensure_room k rs) !! k = Some (set_add c (default [] (rs !! k))).
Proof.
  unfold add_member. rewrite lookup_alter_eq, lookup_ensure_room_eq. done.
Qed.

Lemma lookup_add_ensure_ne (k k' : string) (c : Client) (rs : gmap string (list Client)) :
  k ≠ k' → add_member k c (ensure_room k rs) !! k' = rs !! k'.
Proof.
  intros Hne. unfold add_member.
  rewrite lookup_alter_ne by done. by apply lookup_ensure_room_ne.
Qed.

Lemma room_size_add_ensure (k : string) (c : Client) (rs : gmap string (list Client)) :
  room_size k (add_member k c (ensure_room k rs)) = length (set_add c (default [] (rs !! k))).
Proof. unfold room_size. by rewrite lookup_add_ensure_eq. Qed.

Lemma room_known_false (k : string) (st : State) :
  room_known k st = false ↔ rooms st !! k = None ∧ roomMetadata st !! k = None.
Proof.
  unfold room_known. rewrite orb_false_iff, !bool_decide_eq_false.
  rewrite <- !eq_None_not_Some. done.
Qed.

(** ** Properties of [send] and [broadcast] *)

Lemma elem_of_send (env : Env) (c c' : Client) (m m' : ServerMsg) :
  (c', m') ∈ send env c m ↔ c' = c ∧ m' = m ∧ isOpen env c = true.
Proof.
  unfold send. destruct (isOpen env c).
  - rewrite list_elem_of_singleton. split; [by intros [= -> ->] | by intros (-> & -> & _)].
  - split; [by intros ?%elem_of_nil | by intros (_ & _ & ?)].
Qed.

Lemma broadcast_cons (env : Env) (c : Client) (l : list Client) (f : Client → ServerMsg) :
  broadcast env (c :: l) f = send env c (f c) ++ broadcast env l f.
Proof. done. Qed.

Lemma elem_of_broadcast (env : Env) (l : list Client) (f : Client → ServerMsg) (c : Client) (m : ServerMsg) :
  (c, m) ∈ broadcast env l f ↔ c ∈ l ∧ isOpen env c = true ∧ m = f c.
Proof.
  unfold broadcast. rewrite list_elem_of_bind. split.
  - intros (y & (-> & -> & Hopen)%elem_of_send & Hy). done.
  - intros (Hc & Hopen & ->). exists c. split; [|done]. by apply elem_of_send.
Qed.

(** ** The dispatch on [message.type] *)

Lemma prop_Some_object (message : json) (name : string) (v : json) :
  prop message name = Some v →
  negb (truthy message) || negb (String.eqb (typeof message) "object") = false.
Proof. destruct message; simpl; intros; done. Qed.

Lemma on_message_create (env : Env) (socket : Client) (message : json) (st : State) :
  prop message "type" = Some (JStr "create-room") →
  on_message env socket (Some message) st = create_room env socket message st.
Proof.
  intros Ht. unfold on_message. rewrite (prop_Some_object _ _ _ Ht), Ht. done.
Qed.

Lemma on_message_join (env : Env) (socket : Client) (message : json) (st : State) :
  prop message "type" = Some (JStr "join-room") →
  on_message env socket (Some message) st = Some (join_room env socket message st).
Proof.
  intros Ht. unfold on_message. rewrite (prop_Some_object _ _ _ Ht), Ht. done.
Qed.

Lemma on_message_chat (env : Env) (socket : Client) (message : json) (st : State) :
  prop message "type" = Some (JStr "chat-message") →
  on_message env socket (Some message) st = Some (chat_message env socket message st).
Proof.
  intros Ht. unfold on_message. rewrite (prop_Some_object _ _ _ Ht), Ht. done.
Qed.

Lemma truthy_JStr (s : string) : truthy (JStr s) = true ↔ s ≠ "".
Proof. destruct s; simpl; split; done. Qed.

Lemma join_room_valid (env : Env) (socket : Client) (message : json) (code : string) (st : State) :
  prop message "roomId" = Some (JStr code) → code ≠ "" →
  join_room env socket message st = joinRoom env socket code st.
Proof.
  intros Hr Hne. unfold join_room. rewrite Hr.
  apply truthy_JStr in Hne. by rewrite Hne.
Qed.

Lemma chat_message_valid (env : Env) (socket : Client) (message : json)
    (roomId content sender : string) (st : State) :
  prop message "roomId" = Some (JStr roomId) →
  prop message "content" = Some (JStr content) →
  prop message "sender" = Some (JStr sender) →
  chat_message env socket message st = broadcastChat env socket roomId content sender st.
Proof. intros Hr Hc Hs. unfold chat_message. by rewrite Hr, Hc, Hs. Qed.

Lemma create_room_explicit (env : Env) (socket : Client) (message : json) (code : string) (st : State) :
  prop message "roomId" = Some (JStr code) → code ≠ "" →
  create_room env socket message st
  = Some (created_state env socket (toUpperCase code) st,
          send env socket (RoomCreated (toUpperCase code)
                             (length (set_add socket (members (toUpperCase code) st))))).
Proof.
  intros Hr Hne. unfold create_room. rewrite Hr.
  apply truthy_JStr in Hne. rewrite Hne. simpl.
  by rewrite room_size_add_ensure.
Qed.

(** ** The generated code has six characters *)

Lemma string_length_app (s t : string) :
  String.length (s +:+ t) = String.length s + String.length t.
Proof. induction s as [|c s IH]; simpl; [done | by rewrite IH]. Qed.

Lemma charAt_chars_length (d : nat) :
  String.length (charAt chars (d mod String.length chars)) = 1.
Proof.
  assert (d mod String.length chars < 36) as Hlt
    by (apply Nat.mod_upper_bound; done).
  revert Hlt. generalize (d mod String.length chars). intros i Hi.
  do 36 (destruct i as [|i]; [done|]). lia.
Qed.

Lemma foldl_append_length (g : nat → string) (l : list nat) (acc : string) :
  (∀ d, String.length (g d) = 1) →
  String.length (foldl (λ result d, result +:+ g d) acc l) = String.length acc + length l.
Proof.
  intros Hg. revert acc. induction l as [|d l IH]; intros acc; simpl; [lia|].
  rewrite IH, string_length_app, Hg. lia.
Qed.

Lemma generateShortCode_length (ds rest : list nat) (code : string) :
  generateShortCode ds = Some (code, rest) → String.length code = 6.
Proof.
  unfold generateShortCode. destruct (decide (6 ≤ length ds)) as [Hlen|]; [|done].
  intros [= <- <-].
  rewrite (foldl_append_length (λ d, charAt chars (d mod String.length chars)))
    by apply charAt_chars_length.
  rewrite length_take. change (String.length "") with 0. lia.
Qed.

Lemma fresh_code_spec (fuel : nat) (ds : list nat) (st : State) (code : string) :
  fresh_code fuel ds st = Some code →
  String.length code = 6 ∧ room_known code st = false.
Proof.
  revert ds. induction fuel as [|fuel IH]; intros ds; simpl; [done|].
  destruct (generateShortCode ds) as [[c rest]|] eqn:Hg; [|done].
  destruct (room_known c st) eqn:Hk.
  - apply IH.
  - intros [= <-]. split; [|done]. by eapply generateShortCode_length.
Qed.

Lemma toUpperCase_nonempty (s : string) : s ≠ "" → toUpperCase s ≠ "".
Proof. destruct s; simpl; done. Qed.

(** Every outcome of [create-room] is [created_state] at a non-empty code. *)
Lemma create_room_Some (env : Env) (socket : Client) (message : json) (st st' : State)
    (out : list (Client * ServerMsg)) :
  create_room env socket message st = Some (st', out) →
  ∃ k, k ≠ "" ∧ st' = created_state env socket k st
       ∧ out = send env socket (RoomCreated k (length (set_add socket (members k st)))).
Proof.
  unfold create_room. intros H.
  apply bind_Some in H as (k & Hk & [= <- <-]).
  exists k. split_and!; [| done | by rewrite room_size_add_ensure].
  assert (fresh_code (length (draws env)) (draws env) st = Some k → k ≠ "") as Hfresh.
  { intros [Hlen _]%fresh_code_spec ->. done. }
  destruct (prop message "roomId") as [[| | |s| |]|]; try by apply Hfresh.
  destruct (truthy (JStr s)) eqn:Ht; [|by apply Hfresh].
  injection Hk as <-. by apply toUpperCase_nonempty, truthy_JStr.
Qed.

(** ** Membership after [create-room] and [join-room] *)

Lemma members_created_eq (env : Env) (socket : Client) (k : string) (st : State) :
  members k (created_state env socket k st) = set_add socket (members k st).
Proof. unfold members. simpl. by rewrite lookup_add_ensure_eq. Qed.

Lemma rooms_created_ne (env : Env) (socket : Client) (k k' : string) (st : State) :
  k ≠ k' → rooms (created_state env socket k st) !! k' = rooms st !! k'.
Proof. intros Hne. simpl. by apply lookup_add_ensure_ne. Qed.

Lemma members_joined_eq (env : Env) (socket : Client) (k : string) (st : State) :
  members k (joined_state env socket k st) = set_add socket (members k st).
Proof. unfold members. simpl. by rewrite lookup_add_ensure_eq. Qed.

Lemma rooms_joined_ne (env : Env) (socket : Client) (k k' : string) (st : State) :
  k ≠ k' → rooms (joined_state env socket k st) !! k' = rooms st !! k'.
Proof. intros Hne. simpl. by apply lookup_add_ensure_ne. Qed.

Lemma joinRoom_known (env : Env) (socket : Client) (code : string) (st : State) :
  room_known (toUpperCase code) st = true →
  joinRoom env socket code st
  = (joined_state env socket (toUpperCase code) st,
     send env socket (JoinedRoom (toUpperCase code))
     ++ broadcast env (set_add socket (members (toUpperCase code) st))
          (λ _, UserCountUpdate (length (set_add socket (members (toUpperCase code) st))))).
Proof.
  intros Hk. unfold joinRoom. rewrite Hk.
  rewrite room_size_add_ensure, lookup_add_ensure_eq. done.
Qed.

Lemma joinRoom_unknown (env : Env) (socket : Client) (code : string) (st : State) :
  room_known (toUpperCase code) st = false →
  joinRoom env socket code st = (st, send env socket (ErrorMsg "Room not found")).
Proof. intros Hk. unfold joinRoom. by rewrite Hk. Qed.

(** ** The [close] handler on a bound socket *)

Lemma members_closed_eq (socket : Client) (k : string) (st : State) :
  members k (closed_state socket k st) = set_delete socket (members k st).
Proof.
  unfold members. simpl. rewrite lookup_alter_eq.
  by destruct (rooms st !! k).
Qed.

Lemma on_close_bound (env : Env) (socket : Client) (k : string) (st : State) :
  socketRoomId st !! socket = Some k → k ≠ "" → is_Some (rooms st !! k) →
  on_close env socket st
  = (closed_state socket k st,
     if decide (0 < length (set_delete socket (members k st)))
     then broadcast env (set_delete socket (members k st))
            (λ _, UserCountUpdate (length (set_delete socket (members k st))))
     else []).
Proof.
  intros Hb Hne [l Hl]. unfold on_close. rewrite Hb.
  apply truthy_JStr in Hne. rewrite Hne, Hl.
  unfold room_size, members. rewrite lookup_alter_eq, Hl. done.
Qed.

(** In every case [close] leaves the metadata table and the bindings as
    they are, and only shrinks membership sets. *)
Lemma on_close_frame (env : Env) (socket : Client) (st : State) :
  roomMetadata (on_close env socket st).1 = roomMetadata st
  ∧ socketRoomId (on_close env socket st).1 = socketRoomId st
  ∧ ∀ k, rooms (on_close env socket st).1 !! k = rooms st !! k
         ∨ ∃ l, rooms st !! k = Some l
                ∧ rooms (on_close env socket st).1 !! k = Some (set_delete socket l).
Proof.
  unfold on_close.
  destruct (socketRoomId st !! socket) as [roomId|]; [|by split_and!; auto].
  destruct (truthy (JStr roomId)); [|by split_and!; auto].
  destruct (rooms st !! roomId) as [l|] eqn:Hl; [|by split_and!; auto].
  simpl. split_and!; [done..|]. intros k.
  destruct (decide (roomId = k)) as [<-|Hne].
  - right. exists l. by rewrite lookup_alter_eq, Hl.
  - left. by rewrite lookup_alter_ne.
Qed.

(** ** The sweep, entry by entry *)

Lemma sweep_room_ne (t : Z) (st : State) (k k' : string) :
  k ≠ k' →
  rooms (sweep_room t st k') !! k = rooms st !! k
  ∧ roomMetadata (sweep_room t st k') !! k = roomMetadata st !! k.
Proof.
  intros Hne. unfold sweep_room.
  destruct (roomMetadata st !! k') as [m|]; [|done].
  destruct (expired t k' m st); [|done].
  simpl. by rewrite !lookup_delete_ne.
Qed.

Lemma sweep_room_socketRoomId (t : Z) (st : State) (k : string) :
  socketRoomId (sweep_room t st k) = socketRoomId st.
Proof.
  unfold sweep_room. destruct (roomMetadata st !! k) as [m|]; [|done].
  by destruct (expired t k m st).
Qed.

Lemma foldl_sweep_room_notin (t : Z) (ks : list string) (st : State) (k : string) :
  k ∉ ks →
  rooms (foldl (sweep_room t) st ks) !! k = rooms st !! k
  ∧ roomMetadata (foldl (sweep_room t) st ks) !! k = roomMetadata st !! k.
Proof.
  revert st. induction ks as [|k' ks IH]; intros st Hnin; simpl; [done|].
  apply not_elem_of_cons in Hnin as [Hne Hnin].
  destruct (IH (sweep_room t st k') Hnin) as [-> ->].
  by apply sweep_room_ne.
Qed.

Lemma foldl_sweep_room_socketRoomId (t : Z) (ks : list string) (st : State) :
  socketRoomId (foldl (sweep_room t) st ks) = socketRoomId st.
Proof.
  revert st. induction ks as [|k ks IH]; intros st; simpl; [done|].
  by rewrite IH, sweep_room_socketRoomId.
Qed.

(** [expired] reads the state only at the room code it is asked about. *)
Lemma expired_ext (t : Z) (k : string) (m : Metadata) (st1 st2 : State) :
  rooms st1 !! k = rooms st2 !! k → expired t k m st1 = expired t k m st2.
Proof. intros H. unfold expired, room_size. by rewrite H. Qed.

(** The entries of room code [k] after the sweep, in terms of the state
    before it. *)
Lemma sweep_lookup (env : Env) (st : State) (k : string) :
  match roomMetadata st !! k with
  | Some m =>
      if expired (now env) k m st
      then rooms (sweep env st) !! k = None ∧ roomMetadata (sweep env st) !! k = None
      else rooms (sweep env st) !! k = rooms st !! k
           ∧ roomMetadata (sweep env st) !! k = Some m
  | None =>
      rooms (sweep env st) !! k = rooms st !! k
      ∧ roomMetadata (sweep env st) !! k = None
  end.
Proof.
  unfold sweep.
  assert (NoDup (metadata_keys st)) as Hnd by apply NoDup_fst_map_to_list.
  assert (k ∈ metadata_keys st ↔ is_Some (roomMetadata st !! k)) as Hin.
  { unfold metadata_keys. rewrite list_elem_of_fmap. split.
    - intros ([k' m] & -> & Hm%elem_of_map_to_list). by exists m.
    - intros [m Hm]. exists (k, m). split; [done|]. by apply elem_of_map_to_list. }
  revert Hnd Hin. generalize (metadata_keys st) as ks. intros ks.
  destruct (roomMetadata st !! k) as [m|] eqn:Hm.
  - intros Hnd Hin. assert (k ∈ ks) as Hk by (apply Hin; eauto). clear Hin.
    revert st Hm Hnd Hk. induction ks as [|k' ks IH]; intros st Hm Hnd Hk.
    { by apply elem_of_nil in Hk. }
    apply NoDup_cons in Hnd as [Hk' Hnd]. simpl.
    destruct (decide (k = k')) as [<-|Hne].
    + destruct (foldl_sweep_room_notin (now env) ks (sweep_room (now env) st k) k Hk')
        as [-> ->].
      unfold sweep_room. rewrite Hm.
      destruct (expired (now env) k m st); simpl; [|done].
      by rewrite !lookup_delete_eq.
    + apply elem_of_cons in Hk as [?|Hk]; [done|].
      destruct (sweep_room_ne (now env) st k k' Hne) as [Hr Hmeta].
      specialize (IH (sweep_room (now env) st k')).
      rewrite Hmeta, Hm in IH. specialize (IH eq_refl Hnd Hk).
      rewrite (expired_ext _ _ _ _ st Hr) in IH. by rewrite Hr in IH.
  - intros _ Hin. assert (k ∉ ks) as Hk.
    { intros Hk%Hin. by destruct Hk. }
    destruct (foldl_sweep_room_notin (now env) ks st k Hk) as [-> ->]. done.
Qed.

(** ** Well-formed registry states *)

Lemma wf_initial : wf initial.
Proof.
  split_and!; simpl.
  - intros k l. by rewrite lookup_empty.
  - intros c k. by rewrite lookup_empty.
  - intros k. rewrite lookup_empty. by intros [? ?].
Qed.

Lemma NoDup_members (k : string) (st : State) : wf st → NoDup (members k st).
Proof.
  intros (Hnd & _ & _). unfold members.
  destruct (rooms st !! k) as [l|] eqn:Hl; simpl; [by eapply Hnd | constructor].
Qed.

Lemma wf_add_member (socket : Client) (k : string) (st st' : State) :
  wf st → k ≠ "" →
  rooms st' = add_member k socket (ensure_room k (rooms st)) →
  socketRoomId st' = <[socket := k]> (socketRoomId st) →
  is_Some (roomMetadata st' !! k) →
  (∀ k', is_Some (roomMetadata st !! k') → is_Some (roomMetadata st' !! k')) →
  wf st'.
Proof.
  intros Hwf Hk Hr Hs Hmk Hm. split_and!.
  - intros k' l. rewrite Hr. destruct (decide (k = k')) as [<-|Hne].
    + rewrite lookup_add_ensure_eq. intros [= <-].
      apply NoDup_set_add. by apply (NoDup_members k st).
    + rewrite lookup_add_ensure_ne by done. apply Hwf.
  - intros c k'. rewrite Hs. destruct (decide (socket = c)) as [<-|Hne].
    + rewrite lookup_insert_eq. by intros [= <-].
    + rewrite lookup_insert_ne by done. apply Hwf.
  - intros k'. rewrite Hr. destruct (decide (k = k')) as [<-|Hne]; [done|].
    rewrite lookup_add_ensure_ne by done. intros H. by apply Hm, Hwf.
Qed.

Lemma wf_created (env : Env) (socket : Client) (k : string) (st : State) :
  wf st → k ≠ "" → wf (created_state env socket k st).
Proof.
  intros Hwf Hk. eapply wf_add_member; [done..| |]; simpl.
  - by rewrite lookup_insert_eq.
  - intros k' H. destruct (decide (k = k')) as [<-|Hne].
    + by rewrite lookup_insert_eq.
    + by rewrite lookup_insert_ne.
Qed.

Lemma wf_joined (env : Env) (socket : Client) (k : string) (st : State) :
  wf st → k ≠ "" → room_known k st = true → wf (joined_state env socket k st).
Proof.
  intros Hwf Hk Hknown.
  assert (is_Some (roomMetadata st !! k)) as Hmeta.
  { unfold room_known in Hknown.
    apply orb_true_iff in Hknown as [H%bool_decide_eq_true|H%bool_decide_eq_true];
      [by apply Hwf | done]. }
  eapply wf_add_member; [done..| |]; simpl.
  - by apply lookup_alter_is_Some.
  - intros k' H. by apply lookup_alter_is_Some.
Qed.

Lemma wf_on_close (env : Env) (socket : Client) (st : State) :
  wf st → wf (on_close env socket st).1.
Proof.
  intros (Hnd & Hb & Hmeta).
  destruct (on_close_frame env socket st) as (Hm & Hs & Hr). split_and!.
  - intros k l Hl. destruct (Hr k) as [Heq|(l0 & Hl0 & Heq)]; rewrite Heq in Hl.
    + by eapply Hnd.
    + injection Hl as <-. apply NoDup_set_delete. by eapply Hnd.
  - rewrite Hs. apply Hb.
  - intros k. rewrite Hm. intros H. apply Hmeta.
    destruct (Hr k) as [Heq|(l0 & Hl0 & _)]; [by rewrite <- Heq | by rewrite Hl0].
Qed.

Lemma wf_sweep (env : Env) (st : State) : wf st → wf (sweep env st).
Proof.
  intros (Hnd & Hb & Hmeta). split_and!.
  - intros k l Hl. pose proof (sweep_lookup env st k) as H.
    destruct (roomMetadata st !! k) as [m|].
    + destruct (expired (now env) k m st); destruct H as [Hr _]; rewrite Hr in Hl;
        [done | by eapply Hnd].
    + destruct H as [Hr _]. rewrite Hr in Hl. by eapply Hnd.
  - unfold sweep. rewrite foldl_sweep_room_socketRoomId. apply Hb.
  - intros k Hk. pose proof (sweep_lookup env st k) as H.
    destruct (roomMetadata st !! k) as [m|] eqn:Hm.
    + destruct (expired (now env) k m st); destruct H as [Hr Hm'].
      * rewrite Hr in Hk. by destruct Hk.
      * by rewrite Hm'.
    + destruct H as [Hr _]. rewrite Hr in Hk. apply Hmeta in Hk.
      rewrite Hm in Hk. by destruct Hk.
Qed.

(** The three outcomes of a [message] event for the registry. *)
Lemma on_message_state (env : Env) (socket : Client) (data : option json) (st st' : State)
    (out : list (Client * ServerMsg)) :
  on_message env socket data st = Some (st', out) →
  st' = st
  ∨ (∃ k, k ≠ "" ∧ st' = created_state env socket k st)
  ∨ (∃ k, k ≠ "" ∧ room_known k st = true ∧ st' = joined_state env socket k st).
Proof.
  unfold on_message. destruct data as [message|]; [|intros [= <- _]; by left].
  destruct (negb (truthy message) || negb (String.eqb (typeof message) "object"));
    [intros [= <- _]; by left|].
  destruct (prop message "type") as [[| | |t| |]|]; try (intros [= <- _]; by left).
  destruct (String.eqb t "create-room").
  { intros (k & Hk & -> & _)%create_room_Some. right; left. eauto. }
  destruct (String.eqb t "join-room").
  { unfold join_room.
    destruct (prop message "roomId") as [[| | |code| |]|]; try (intros [= <- _]; by left).
    destruct (truthy (JStr code)) eqn:Ht; simpl; [|intros [= <- _]; by left].
    destruct (room_known (toUpperCase code) st) eqn:Hk.
    - rewrite joinRoom_known by done. intros [= <- _]. right; right.
      exists (toUpperCase code). split_and!; [|done..].
      by apply toUpperCase_nonempty, truthy_JStr.
    - rewrite joinRoom_unknown by done. intros [= <- _]. by left. }
  destruct (String.eqb t "chat-message"); [|intros [= <- _]; by left].
  unfold chat_message, broadcastChat.
  repeat case_match; intros [= <- _]; by left.
Qed.

Lemma wf_step (env : Env) (ev : Event) (st st' : State) (out : list (Client * ServerMsg)) :
  wf st → step env ev st = Some (st', out) → wf st'.
Proof.
  intros Hwf. destruct ev as [socket data|socket|]; simpl.
  - intros [->|[(k & Hk & ->)|(k & Hk & Hknown & ->)]]%on_message_state;
      [done | by apply wf_created | by apply wf_joined].
  - intros [= Hc]. pose proof (wf_on_close env socket st Hwf) as H.
    by rewrite Hc in H.
  - intros [= <- _]. by apply wf_sweep.
Qed.

Lemma reachable_wf (st : State) : reachable st → wf st.
Proof.
  induction 1 as [|st env ev st' out _ IH Hstep]; [apply wf_initial|].
  by eapply wf_step.
Qed.

Lemma run_reachable (trace : list (Env * Event)) (st st' : State) (out : list (Client * ServerMsg)) :
  reachable st → run trace st = Some (st', out) → reachable st'.
Proof.
  revert st out. induction trace as [|[env ev] trace IH]; intros st out Hst; simpl.
  - by intros [= <- _].
  - intros H. apply bind_Some in H as ([st1 out1] & Hstep & H).
    apply bind_Some in H as ([st2 out2] & Hrun & [= <- _]).
    eapply IH; [|done]. by eapply reachable_step.
Qed.

Lemma expired_true_iff (t : Z) (k : string) (m : Metadata) (st : State) :
  expired t k m st = true
  ↔ (rooms st !! k = None ∨ rooms st !! k = Some [])
    ∧ (t - lastActivity m > expireTime)%Z.
Proof.
  unfold expired, room_size.
  rewrite andb_true_iff, orb_true_iff, !bool_decide_eq_true, Nat.eqb_eq.
  split; intros [H1 H2]; (split; [|done]).
  - destruct (rooms st !! k) as [[|c l]|]; simpl in *;
      [by right | by destruct H1 | by left].
  - destruct H1 as [-> | ->]; simpl; [by left | by right].
Qed.

(** The sweep leaves a room with a member as it is. *)
Lemma sweep_keeps_occupied (env : Env) (st : State) (k : string) :
  members k st ≠ [] →
  rooms (sweep env st) !! k = rooms st !! k
  ∧ roomMetadata (sweep env st) !! k = roomMetadata st !! k.
Proof.
  intros Hne. pose proof (sweep_lookup env st k) as H.
  destruct (roomMetadata st !! k) as [m|]; [|done].
  destruct (expired (now env) k m st) eqn:He; [|done].
  apply expired_true_iff in He as [[Hr|Hr] _]; unfold members in Hne;
    by rewrite Hr in Hne.
Qed.

(** ** States and traces used as concrete inputs *)

Lemma one_room_reachable : reachable one_room_state.
Proof.
  apply (run_reachable [(env_at 0, Message 1 (create_room_msg "AB12CD"))] initial _ 
           [(1, RoomCreated "AB12CD" 1)] reachable_initial).
  vm_compute. reflexivity.
Qed.

Lemma two_rooms_reachable : reachable two_rooms_state.
Proof.
  apply (run_reachable [(env_at 0, Message 1 (create_room_msg "ROOMAA"));
                        (env_at 1, Message 2 (create_room_msg "ROOMBB"))] initial _
           [(1, RoomCreated "ROOMAA" 1); (2, RoomCreated "ROOMBB" 1)] reachable_initial).
  vm_compute. reflexivity.
Qed.

Lemma rejoin_step :
  on_message (env_at 2) 1 (join_room_msg "ROOMBB") two_rooms_state
  = Some (rejoin_state,
          [(1, JoinedRoom "ROOMBB"); (2, UserCountUpdate 2); (1, UserCountUpdate 2)]).
Proof. vm_compute. reflexivity. Qed.

Lemma rejoin_reachable : reachable rejoin_state.
Proof.
  eapply reachable_step; [apply two_rooms_reachable|].
  apply (rejoin_step : step (env_at 2) (Message 1 _) _ = _).
Qed.

(** ** Claims *)

(** C1, as stated, fails: after [create-room ROOMAA] by socket 1,
    [create-room ROOMBB] by socket 2 and [join-room ROOMBB] by socket 1,
    socket 1 is listed in the membership sets of both [ROOMAA] and
    [ROOMBB]; the join did not take it out of [ROOMAA]. *)
Lemma connection_in_two_rooms :
  run [(env_at 0, Message 1 (create_room_msg "ROOMAA"));
       (env_at 1, Message 2 (create_room_msg "ROOMBB"));
       (env_at 2, Message 1 (join_room_msg "ROOMBB"))] initial
  = Some (rejoin_state,
          [(1, RoomCreated "ROOMAA" 1); (2, RoomCreated "ROOMBB" 1);
           (1, JoinedRoom "ROOMBB"); (2, UserCountUpdate 2); (1, UserCountUpdate 2)])
  ∧ reachable rejoin_state
  ∧ members "ROOMAA" rejoin_state = [1]
  ∧ members "ROOMBB" rejoin_state = [2; 1]
  ∧ ¬ one_room_per_connection rejoin_state.
Proof.
  split_and!; [by vm_compute | apply rejoin_reachable | by vm_compute..|].
  intros H.
  assert (members "ROOMAA" rejoin_state = [1]) as HA by (by vm_compute).
  assert (members "ROOMBB" rejoin_state = [2; 1]) as HB by (by vm_compute).
  assert ("ROOMAA" = "ROOMBB") as Heq; [|done].
  apply (H 1); [rewrite HA | rewrite HB]; set_solver.
Qed.

(** Socket 1 joins [ROOMBB] under the spelling [roombb]. *)
Lemma rejoin_step_lowercase :
  on_message (env_at 2) 1
    (Some (JObj [("type", JStr "join-room"); ("roomId", JStr "roombb")])) two_rooms_state
  = Some (rejoin_state,
          [(1, JoinedRoom "ROOMBB"); (2, UserCountUpdate 2); (1, UserCountUpdate 2)]).
Proof. vm_compute. reflexivity. Qed.

(** C1, amended: in every reachable state each membership set lists a
    socket at most once, and a [create-room] or [join-room] by a socket
    removes no socket from any membership set (so the sender stays listed in
    a room it was in before).  When the frame changes the registry, the
    sender is bound to one room code, is added to the membership set of
    that code, and no other membership set has changed.  The code is the
    one the frame names: for a [roomId] that is a non-empty string of ASCII
    characters, a [create-room], and a [join-room] of a room the server
    knows, bind the sender to the uppercased [roomId] and add it to the
    set of exactly that code; a [join-room] of a room the server does not
    know changes nothing. *)
Theorem create_join_membership (st : State) (env : Env) (socket : Client) (message : json)
    (st' : State) (out : list (Client * ServerMsg)) :
  reachable st →
  prop message "type" = Some (JStr "create-room")
  ∨ prop message "type" = Some (JStr "join-room") →
  on_message env socket (Some message) st = Some (st', out) →
  (∀ k, NoDup (members k st'))
  ∧ (∀ k c, c ∈ members k st → c ∈ members k st')
  ∧ (st' = st
     ∨ ∃ k, socketRoomId st' !! socket = Some k
            ∧ socket ∈ members k st'
            ∧ members k st' = set_add socket (members k st)
            ∧ ∀ k', k' ≠ k → rooms st' !! k' = rooms st !! k')
  ∧ (∀ code,
       prop message "roomId" = Some (JStr code) → code ≠ "" → ascii_only code →
       (prop message "type" = Some (JStr "create-room")
        ∨ room_known (toUpperCase code) st = true →
        socketRoomId st' !! socket = Some (toUpperCase code)
        ∧ socket ∈ members (toUpperCase code) st'
        ∧ members (toUpperCase code) st' = set_add socket (members (toUpperCase code) st)
        ∧ ∀ k', k' ≠ toUpperCase code → rooms st' !! k' = rooms st !! k')
       ∧ (prop message "type" = Some (JStr "join-room") →
          room_known (toUpperCase code) st = false →
          st' = st)).
Proof.
  intros Hreach Htype Hstep.
  assert (reachable st') as Hreach'.
  { by eapply (reachable_step st env (Message socket (Some message))). }
  split; [intros k; by apply NoDup_members, reachable_wf|].
  assert (∀ k, st' = created_state env socket k st ∨ st' = joined_state env socket k st →
               (∀ k' c, c ∈ members k' st → c ∈ members k' st')
               ∧ socketRoomId st' !! socket = Some k
               ∧ socket ∈ members k st'
               ∧ members k st' = set_add socket (members k st)
               ∧ ∀ k', k' ≠ k → rooms st' !! k' = rooms st !! k') as Hadd.
  { intros k Hst'.
    assert (members k st' = set_add socket (members k st)) as Hk
      by (destruct Hst' as [-> | ->]; [apply members_created_eq | apply members_joined_eq]).
    assert (∀ k', k' ≠ k → rooms st' !! k' = rooms st !! k') as Hother.
    { intros k' Hne. destruct Hst' as [-> | ->];
        [by apply rooms_created_ne | by apply rooms_joined_ne]. }
    split_and!; [| |rewrite Hk; apply elem_of_set_add; by left|done|done].
    - intros k' c Hc. destruct (decide (k' = k)) as [->|Hne].
      + rewrite Hk. apply elem_of_set_add. by right.
      + unfold members in *. by rewrite Hother.
    - destruct Hst' as [-> | ->]; simpl; by rewrite lookup_insert_eq. }
  assert (∀ code, prop message "roomId" = Some (JStr code) → code ≠ "" →
                  (prop message "type" = Some (JStr "create-room")
                   ∨ room_known (toUpperCase code) st = true →
                   st' = created_state env socket (toUpperCase code) st
                   ∨ st' = joined_state env socket (toUpperCase code) st)
                  ∧ (prop message "type" = Some (JStr "join-room") →
                     room_known (toUpperCase code) st = false → st' = st)) as Hnamed.
  { intros code Hr Hne. destruct Htype as [Ht|Ht].
    - rewrite on_message_create, (create_room_explicit _ _ _ code) in Hstep by done.
      injection Hstep as <- _. split; [by left|].
      intros Ht'. rewrite Ht in Ht'. discriminate Ht'.
    - rewrite on_message_join, (join_room_valid _ _ _ code) in Hstep by done.
      split.
      + intros [Ht'|Hknown]; [rewrite Ht in Ht'; discriminate Ht'|].
        rewrite joinRoom_known in Hstep by done. injection Hstep as <- _. by right.
      + intros _ Hunknown. rewrite joinRoom_unknown in Hstep by done.
        by injection Hstep as <- _. }
  split_and!.
  - apply on_message_state in Hstep as [->|[(k & _ & Hk)|(k & _ & _ & Hk)]]; [done|..].
    + by destruct (Hadd k (or_introl Hk)) as (? & _).
    + by destruct (Hadd k (or_intror Hk)) as (? & _).
  - apply on_message_state in Hstep as [->|[(k & _ & Hk)|(k & _ & _ & Hk)]]; [by left|..].
    + destruct (Hadd k (or_introl Hk)) as (_ & ? & ? & ? & ?). right. eauto.
    + destruct (Hadd k (or_intror Hk)) as (_ & ? & ? & ? & ?). right. eauto.
  - intros code Hr Hne _. destruct (Hnamed code Hr Hne) as [Hsucc Hfail].
    split; [|done]. intros Hcase.
    by destruct (Hadd (toUpperCase code) (Hsucc Hcase)) as (_ & ? & ? & ? & ?).
Qed.

Lemma create_join_membership_witness :
  reachable two_rooms_state
  ∧ (∀ k, NoDup (members k rejoin_state))
  ∧ (∀ k c, c ∈ members k two_rooms_state → c ∈ members k rejoin_state)
  ∧ (rejoin_state = two_rooms_state
     ∨ ∃ k, socketRoomId rejoin_state !! 1 = Some k
            ∧ 1 ∈ members k rejoin_state
            ∧ members k rejoin_state = set_add 1 (members k two_rooms_state)
            ∧ ∀ k', k' ≠ k → rooms rejoin_state !! k' = rooms two_rooms_state !! k')
  ∧ (∀ code,
       prop (JObj [("type", JStr "join-room"); ("roomId", JStr "roombb")]) "roomId"
       = Some (JStr code) → code ≠ "" → ascii_only code →
       (prop (JObj [("type", JStr "join-room"); ("roomId", JStr "roombb")]) "type"
        = Some (JStr "create-room")
        ∨ room_known (toUpperCase code) two_rooms_state = true →
        socketRoomId rejoin_state !! 1 = Some (toUpperCase code)
        ∧ 1 ∈ members (toUpperCase code) rejoin_state
        ∧ members (toUpperCase code) rejoin_state
          = set_add 1 (members (toUpperCase code) two_rooms_state)
        ∧ ∀ k', k' ≠ toUpperCase code →
            rooms rejoin_state !! k' = rooms two_rooms_state !! k')
       ∧ (prop (JObj [("type", JStr "join-room"); ("roomId", JStr "roombb")]) "type"
          = Some (JStr "join-room") →
          room_known (toUpperCase code) two_rooms_state = false →
          rejoin_state = two_rooms_state)).
Proof.
  split; [apply two_rooms_reachable|].
  apply (create_join_membership two_rooms_state (env_at 2) 1
           (JObj [("type", JStr "join-room"); ("roomId", JStr "roombb")])
           rejoin_state
           [(1, JoinedRoom "ROOMBB"); (2, UserCountUpdate 2); (1, UserCountUpdate 2)]).
  - apply two_rooms_reachable.
  - right. reflexivity.
  - apply rejoin_step_lowercase.
Defined.

(** ** Chat messages *)

Lemma chat_message_cases (env : Env) (socket : Client) (message : json) (st : State) :
  chat_message env socket message st
  = (st, send env socket (ErrorMsg "Invalid chat message format"))
  ∨ ∃ roomId content sender,
      prop message "roomId" = Some (JStr roomId)
      ∧ prop message "content" = Some (JStr content)
      ∧ prop message "sender" = Some (JStr sender)
      ∧ chat_message env socket message st
        = broadcastChat env socket roomId content sender st.
Proof.
  unfold chat_message.
  destruct (prop message "roomId") as [[| | |r| |]|]; try by left.
  destruct (prop message "content") as [[| | |c| |]|]; try by left.
  destruct (prop message "sender") as [[| | |s| |]|]; try by left.
  right. by exists r, c, s.
Qed.

Lemma broadcastChat_state (env : Env) (socket : Client) (roomId content sender : string)
    (st : State) :
  (broadcastChat env socket roomId content sender st).1 = st.
Proof. unfold broadcastChat. by destruct (rooms st !! toUpperCase roomId). Qed.

Lemma broadcastChat_delivered (env : Env) (socket : Client) (roomId content sender : string)
    (st : State) (l : list Client) :
  rooms st !! toUpperCase roomId = Some l →
  broadcastChat env socket roomId content sender st
  = (st, broadcast env l (λ client, ChatMessage content sender (bool_decide (client = socket)))).
Proof. intros Hl. unfold broadcastChat. by rewrite Hl. Qed.

(** A chat frame in the output of [broadcastChat] went to an open socket
    of the named room and carries the flag [client === socket]. *)
Lemma broadcastChat_recipient (env : Env) (socket : Client) (roomId content sender : string)
    (st : State) (c : Client) (ct sd : string) (own : bool) :
  (c, ChatMessage ct sd own) ∈ (broadcastChat env socket roomId content sender st).2 →
  c ∈ members (toUpperCase roomId) st ∧ isOpen env c = true
  ∧ ct = content ∧ sd = sender ∧ own = bool_decide (c = socket).
Proof.
  unfold broadcastChat, members.
  destruct (rooms st !! toUpperCase roomId) as [l|]; simpl.
  - intros (Hc & Hopen & [= -> -> ->])%elem_of_broadcast. done.
  - intros (_ & [=] & _)%elem_of_send.
Qed.

Lemma own_deliveries_broadcast (env : Env) (socket : Client) (content sender : string)
    (l : list Client) :
  NoDup l →
  own_deliveries
    (broadcast env l (λ client, ChatMessage content sender (bool_decide (client = socket))))
  = if decide (socket ∈ l ∧ isOpen env socket = true)
    then [(socket, ChatMessage content sender true)]
    else [].
Proof.
  unfold own_deliveries.
  induction l as [|a l IH]; intros Hnd.
  - rewrite decide_False; [done|]. intros [?%elem_of_nil _]. done.
  - apply NoDup_cons in Hnd as [Ha Hnd]. rewrite broadcast_cons, filter_app, (IH Hnd).
    clear IH. unfold send. destruct (decide (a = socket)) as [->|Hne].
    + rewrite (decide_False (P := socket ∈ l ∧ _)) by (by intros [? _]).
      rewrite bool_decide_eq_true_2 by done.
      destruct (isOpen env socket) eqn:Hopen.
      * rewrite decide_True by (split; [left|done]). done.
      * rewrite decide_False by (by intros [_ ?]). done.
    + rewrite bool_decide_eq_false_2 by done.
      assert (filter (λ d, flagged_own d = true)
                (if isOpen env a then [(a, ChatMessage content sender false)] else []) = [])
        as -> by (by destruct (isOpen env a)).
      simpl. apply decide_ext. rewrite elem_of_cons.
      split; [intros [? ?]; split; [by right|done] | intros [[?|?] ?]; [congruence|done]].
Qed.

(** C2, as stated, fails: a chat message delivered in [AB12CD] at time 5000
    leaves [lastActivity] at 0, the time of the creation.  And a room is not
    kept alive by its chat: created at time 0, with a chat message delivered
    at time 700000, left by its only member at 700001, it is deleted by
    the sweep at 700002. *)
Lemma chat_leaves_lastActivity :
  on_message (env_at 5000) 1 (chat_msg "AB12CD" "hi" "ann") one_room_state
  = Some (one_room_state, [(1, ChatMessage "hi" "ann" true)])
  ∧ roomMetadata one_room_state !! "AB12CD" = Some {| created := 0; lastActivity := 0 |}
  ∧ run [(env_at 0, Message 1 (create_room_msg "AB12CD"));
         (env_at 700000, Message 1 (chat_msg "AB12CD" "hi" "ann"));
         (env_at 700001, Close 1);
         (env_at 700002, Sweep)] initial
    = Some ({| rooms := ∅; roomMetadata := ∅; socketRoomId := {[ 1 := "AB12CD" ]} |},
            [(1, RoomCreated "AB12CD" 1); (1, ChatMessage "hi" "ann" true)])
  ∧ ¬ chat_touches_activity.
Proof.
  split_and!; [by vm_compute..|].
  intros H.
  specialize (H one_room_state (env_at 5000) 1 "AB12CD" "hi" "ann" one_room_state
                [(1, ChatMessage "hi" "ann" true)] [1] one_room_reachable).
  specialize (H ltac:(by vm_compute) ltac:(by vm_compute)
                {| created := 0; lastActivity := 0 |} ltac:(by vm_compute)).
  discriminate H.
Qed.

(** C2, amended: a [chat-message] frame, delivered or not, leaves the
    registry as it is, so [lastActivity] keeps the time of the last
    [create-room] or [join-room]; what keeps a room that exchanges chat
    messages away from the sweeper is that it has members: a sweep right
    after the message, at any time, leaves every room with a non-empty
    membership set and its metadata in place. *)
Theorem chat_keeps_registry (env : Env) (socket : Client) (message : json) (st st' : State)
    (out : list (Client * ServerMsg)) :
  prop message "type" = Some (JStr "chat-message") →
  on_message env socket (Some message) st = Some (st', out) →
  st' = st
  ∧ ∀ env' k, members k st ≠ [] →
      rooms (sweep env' st') !! k = rooms st !! k
      ∧ roomMetadata (sweep env' st') !! k = roomMetadata st !! k.
Proof.
  intros Ht. rewrite on_message_chat by done. intros [= Hc].
  assert (st' = st) as ->.
  { destruct (chat_message_cases env socket message st) as [H|(r & c & s & _ & _ & _ & H)];
      rewrite H in Hc.
    - by injection Hc as <- _.
    - rewrite <- (broadcastChat_state env socket r c s st). by rewrite Hc. }
  split; [done|]. intros env' k. apply sweep_keeps_occupied.
Qed.

Lemma chat_keeps_registry_witness :
  one_room_state = one_room_state
  ∧ ∀ env' k, members k one_room_state ≠ [] →
      rooms (sweep env' one_room_state) !! k = rooms one_room_state !! k
      ∧ roomMetadata (sweep env' one_room_state) !! k = roomMetadata one_room_state !! k.
Proof.
  apply (chat_keeps_registry (env_at 5000) 1
           (JObj [("type", JStr "chat-message"); ("roomId", JStr "AB12CD");
                  ("content", JStr "hi"); ("sender", JStr "ann")])
           one_room_state one_room_state [(1, ChatMessage "hi" "ann" true)]).
  - reflexivity.
  - vm_compute. reflexivity.
Defined.

Lemma crossed_reachable : reachable crossed_state.
Proof.
  apply (reachable_step rejoin_state (env_at 3) (Message 3 (join_room_msg "ROOMAA")) _
           [(3, JoinedRoom "ROOMAA"); (1, UserCountUpdate 2); (3, UserCountUpdate 2)]
           rejoin_reachable).
  vm_compute. reflexivity.
Qed.

(** C3, as stated, fails: socket 1 created [ROOMAA] and then joined
    [ROOMBB], which is the room it is bound to; a chat message that socket
    3, a member of [ROOMAA], sends in [ROOMAA] is delivered to socket 1. *)
Lemma chat_reaches_rebound_socket :
  on_message (env_at 4) 3 (chat_msg "ROOMAA" "hi" "cy") crossed_state
  = Some (crossed_state,
          [(1, ChatMessage "hi" "cy" false); (3, ChatMessage "hi" "cy" true)])
  ∧ reachable crossed_state
  ∧ socketRoomId crossed_state !! 1 = Some "ROOMBB"
  ∧ ¬ chat_isolation.
Proof.
  split_and!; [by vm_compute | apply crossed_reachable | by vm_compute |].
  intros H.
  apply (H crossed_state (env_at 4) 3 "ROOMAA" "hi" "cy" crossed_state
           [(1, ChatMessage "hi" "cy" false); (3, ChatMessage "hi" "cy" true)]
           1 "ROOMBB" "hi" "cy" false crossed_reachable);
    [by vm_compute | by vm_compute | done | left].
Qed.

(** C3, amended: the recipients of a chat-message broadcast are drawn only
    from the membership set of the room the message names: a chat frame is
    sent only when the message carries a string [roomId], and only to open
    sockets listed in the membership set of that room code; a socket that
    is not listed there never receives it, whatever room it is bound to. *)
Theorem chat_recipients_are_members (env : Env) (socket : Client) (message : json)
    (st st' : State) (out : list (Client * ServerMsg)) (c : Client) (ct sd : string) (own : bool) :
  prop message "type" = Some (JStr "chat-message") →
  on_message env socket (Some message) st = Some (st', out) →
  (c, ChatMessage ct sd own) ∈ out →
  ∃ roomId, prop message "roomId" = Some (JStr roomId)
            ∧ c ∈ members (toUpperCase roomId) st
            ∧ isOpen env c = true.
Proof.
  intros Ht. rewrite on_message_chat by done. intros [= Hc] Hin.
  destruct (chat_message_cases env socket message st) as [H|(r & ct' & sd' & Hr & _ & _ & H)];
    rewrite H in Hc.
  - injection Hc as _ <-. by apply elem_of_send in Hin as (_ & [=] & _).
  - exists r. split; [done|].
    assert (out = (broadcastChat env socket r ct' sd' st).2) as -> by (by rewrite Hc).
    apply broadcastChat_recipient in Hin as (? & ? & _). done.
Qed.

Lemma chat_recipients_are_members_witness :
  ∃ roomId,
    prop (JObj [("type", JStr "chat-message"); ("roomId", JStr "ROOMAA");
                ("content", JStr "hi"); ("sender", JStr "cy")]) "roomId"
    = Some (JStr roomId)
    ∧ 1 ∈ members (toUpperCase roomId) crossed_state
    ∧ isOpen (env_at 4) 1 = true.
Proof.
  apply (chat_recipients_are_members (env_at 4) 3
           (JObj [("type", JStr "chat-message"); ("roomId", JStr "ROOMAA");
                  ("content", JStr "hi"); ("sender", JStr "cy")])
           crossed_state crossed_state
           [(1, ChatMessage "hi" "cy" false); (3, ChatMessage "hi" "cy" true)]
           1 "hi" "cy" false).
  - reflexivity.
  - vm_compute. reflexivity.
  - left.
Defined.

(** C4, as stated, fails: socket 2, which never joined a room, sends a chat
    message naming [AB12CD]; it is broadcast to the room's member, socket 1,
    with [isOwnMessage = false], and no recipient gets [true]. *)
Lemma broadcast_without_own_flag :
  on_message (env_at 5) 2 (chat_msg "AB12CD" "hi" "bob") one_room_state
  = Some (one_room_state, [(1, ChatMessage "hi" "bob" false)])
  ∧ reachable one_room_state
  ∧ own_deliveries [(1, ChatMessage "hi" "bob" false)] = []
  ∧ ¬ self_flagging.
Proof.
  split_and!; [by vm_compute | apply one_room_reachable | by vm_compute |].
  intros H.
  specialize (H one_room_state (env_at 5) 2 "AB12CD" "hi" "bob" one_room_state
                [(1, ChatMessage "hi" "bob" false)] [1] one_room_reachable).
  specialize (H ltac:(by vm_compute) ltac:(by vm_compute)).
  vm_compute in H. discriminate H.
Qed.

(** C4, amended: in a chat-message broadcast a delivery carries
    [isOwnMessage = true] exactly when its recipient is the originating
    socket.  When the originating socket is an open member of the room the
    message names, exactly one delivery is flagged, the one to it; otherwise
    none is. *)
Theorem own_flag_marks_sender (st : State) (env : Env) (socket : Client) (message : json)
    (roomId content sender : string) (l : list nat) (st' : State)
    (out : list (Client * ServerMsg)) :
  reachable st →
  prop message "type" = Some (JStr "chat-message") →
  prop message "roomId" = Some (JStr roomId) →
  prop message "content" = Some (JStr content) →
  prop message "sender" = Some (JStr sender) →
  rooms st !! toUpperCase roomId = Some l →
  on_message env socket (Some message) st = Some (st', out) →
  (∀ c ct sd own, (c, ChatMessage ct sd own) ∈ out → own = bool_decide (c = socket))
  ∧ (socket ∈ l ∧ isOpen env socket = true →
     own_deliveries out = [(socket, ChatMessage content sender true)])
  ∧ (¬ (socket ∈ l ∧ isOpen env socket = true) → own_deliveries out = []).
Proof.
  intros Hreach Ht Hr Hc Hs Hl.
  rewrite on_message_chat, (chat_message_valid _ _ _ roomId content sender) by done.
  rewrite (broadcastChat_delivered _ _ _ _ _ _ l) by done. intros [= <- <-].
  assert (NoDup l) as Hnd.
  { apply reachable_wf in Hreach as (Hnd & _ & _). by eapply Hnd. }
  split_and!.
  - intros c ct sd own (_ & _ & [= _ _ ->])%elem_of_broadcast. done.
  - intros H. rewrite own_deliveries_broadcast by done. by rewrite decide_True.
  - intros H. rewrite own_deliveries_broadcast by done. by rewrite decide_False.
Qed.

Lemma own_flag_marks_sender_witness :
  (∀ c ct sd own,
     (c, ChatMessage ct sd own)
       ∈ [(1, ChatMessage "hi" "cy" false); (3, ChatMessage "hi" "cy" true)] →
     own = bool_decide (c = 3))
  ∧ (3 ∈ [1; 3] ∧ isOpen (env_at 4) 3 = true →
     own_deliveries [(1, ChatMessage "hi" "cy" false); (3, ChatMessage "hi" "cy" true)]
     = [(3, ChatMessage "hi" "cy" true)])
  ∧ (¬ (3 ∈ [1; 3] ∧ isOpen (env_at 4) 3 = true) →
     own_deliveries [(1, ChatMessage "hi" "cy" false); (3, ChatMessage "hi" "cy" true)] = []).
Proof.
  apply (own_flag_marks_sender crossed_state (env_at 4) 3
           (JObj [("type", JStr "chat-message"); ("roomId", JStr "ROOMAA");
                  ("content", JStr "hi"); ("sender", JStr "cy")])
           "ROOMAA" "hi" "cy" [1; 3] crossed_state).
  - apply crossed_reachable.
  - reflexivity.
  - reflexivity.
  - reflexivity.
  - reflexivity.
  - vm_compute. reflexivity.
  - vm_compute. reflexivity.
Defined.

(** C10: a chat message is routed by the [roomId] field it carries and by
    nothing else.  Whatever socket sends it and whatever room that socket is
    bound to or listed in, when a membership set exists for the uppercased
    [roomId] the handler sends exactly the broadcast over that set: every
    member whose socket is open gets the frame (a closed socket cannot be
    sent to), and when the sender is not listed in the set every frame
    carries [isOwnMessage = false]. *)
Theorem chat_routed_by_roomId (env : Env) (socket : Client) (message : json)
    (roomId content sender : string) (l : list nat) (st : State) :
  prop message "type" = Some (JStr "chat-message") →
  prop message "roomId" = Some (JStr roomId) →
  prop message "content" = Some (JStr content) →
  prop message "sender" = Some (JStr sender) →
  rooms st !! toUpperCase roomId = Some l →
  ∃ out,
    on_message env socket (Some message) st = Some (st, out)
    ∧ out = broadcast env l
              (λ client, ChatMessage content sender (bool_decide (client = socket)))
    ∧ (∀ c, c ∈ l → isOpen env c = true →
            (c, ChatMessage content sender (bool_decide (c = socket))) ∈ out)
    ∧ (socket ∉ l →
       (∀ c, c ∈ l → isOpen env c = true → (c, ChatMessage content sender false) ∈ out)
       ∧ ∀ c ct sd own, (c, ChatMessage ct sd own) ∈ out → own = false).
Proof.
  intros Ht Hr Hc Hs Hl. eexists. split.
  { rewrite on_message_chat, (chat_message_valid _ _ _ roomId content sender) by done.
    by rewrite (broadcastChat_delivered _ _ _ _ _ _ l). }
  split; [done|]. split.
  - intros c Hin Hopen. by apply elem_of_broadcast.
  - intros Hnot. split.
    + intros c Hin Hopen. apply elem_of_broadcast. split_and!; [done..|].
      rewrite bool_decide_eq_false_2; [done|]. by intros ->.
    + intros c ct sd own (Hin & _ & [= _ _ ->])%elem_of_broadcast.
      apply bool_decide_eq_false_2. by intros ->.
Qed.

Lemma chat_routed_by_roomId_witness :
  ∃ out,
    on_message (env_at 5) 2
      (Some (JObj [("type", JStr "chat-message"); ("roomId", JStr "ab12cd");
                   ("content", JStr "hi"); ("sender", JStr "bob")])) one_room_state
    = Some (one_room_state, out)
    ∧ out = broadcast (env_at 5) [1]
              (λ client, ChatMessage "hi" "bob" (bool_decide (client = 2)))
    ∧ (∀ c, c ∈ [1] → isOpen (env_at 5) c = true →
            (c, ChatMessage "hi" "bob" (bool_decide (c = 2))) ∈ out)
    ∧ (2 ∉ [1] →
       (∀ c, c ∈ [1] → isOpen (env_at 5) c = true → (c, ChatMessage "hi" "bob" false) ∈ out)
       ∧ ∀ c ct sd own, (c, ChatMessage ct sd own) ∈ out → own = false).
Proof.
  apply (chat_routed_by_roomId (env_at 5) 2
           (JObj [("type", JStr "chat-message"); ("roomId", JStr "ab12cd");
                  ("content", JStr "hi"); ("sender", JStr "bob")])
           "ab12cd" "hi" "bob" [1] one_room_state).
  - reflexivity.
  - reflexivity.
  - reflexivity.
  - reflexivity.
  - vm_compute. reflexivity.
Defined.

(** ** Joining and creating *)

Lemma upper_ascii_spec (c : ascii) :
  upper_ascii c
  = if bool_decide (97 ≤ nat_of_ascii c ≤ 122)
    then ascii_of_nat (nat_of_ascii c - 32)
    else c.
Proof.
  unfold upper_ascii. cbv zeta.
  destruct (Nat.leb_spec 97 (nat_of_ascii c)) as [H1|H1];
    destruct (Nat.leb_spec (nat_of_ascii c) 122) as [H2|H2];
    cbn [andb]; case_bool_decide as H; first [done | lia].
Qed.

Lemma toUpperCase_chars (s : string) :
  string_chars (toUpperCase s) = upper_ascii <$> string_chars s.
Proof. induction s as [|c s IH]; simpl; [done | by rewrite IH]. Qed.

Lemma toUpperCase_length (s : string) :
  String.length (toUpperCase s) = String.length s.
Proof. induction s as [|c s IH]; simpl; [done | by rewrite IH]. Qed.

(** The join of an unknown code and of a known one under a lowercase
    spelling. *)
Example join_room_examples :
  on_message (env_at 7) 9 (join_room_msg "zz99zz") one_room_state
  = Some (one_room_state, [(9, ErrorMsg "Room not found")])
  ∧ on_message (env_at 7) 9 (join_room_msg "ab12cd") one_room_state
    = Some ({| rooms := {[ "AB12CD" := [1; 9] ]};
               roomMetadata := {[ "AB12CD" := {| created := 0; lastActivity := 7 |} ]};
               socketRoomId := {[ 1 := "AB12CD"; 9 := "AB12CD" ]} |},
            [(9, JoinedRoom "AB12CD"); (1, UserCountUpdate 2); (9, UserCountUpdate 2)])
  ∧ on_message (env_at 7) 9 (join_room_msg "") one_room_state
    = Some (one_room_state, [(9, ErrorMsg "Invalid room code")]).
Proof. split_and!; vm_compute; reflexivity. Qed.

(** C5: [join-room] first checks the field: a [roomId] that is not a
    non-empty string is answered [Invalid room code] and nothing else
    happens.  A room code, a non-empty string of ASCII characters, is
    canonicalized to uppercase: the key that is looked up has the length of
    the code, each letter a-z is replaced by the letter A-Z and every other
    character is kept.  When neither a membership set nor a metadata entry
    exists for that key the registry is left as it is and the only frame
    sent is the error [Room not found], to the joiner.  Otherwise the joiner
    is added to the room's membership set and bound to the room, and the
    frames sent are [joined-room] to the joiner followed by the count
    broadcast, no error among them.  So a joiner with an open socket gets
    [Room not found] if and only if neither entry exists. *)
Theorem join_room_not_found_iff (env : Env) (socket : Client) (message : json) (st : State) :
  prop message "type" = Some (JStr "join-room") →
  ∃ st' out,
    on_message env socket (Some message) st = Some (st', out)
    ∧ ((∀ code, prop message "roomId" = Some (JStr code) → code = "") →
       st' = st ∧ out = send env socket (ErrorMsg "Invalid room code"))
    ∧ (∀ code,
         prop message "roomId" = Some (JStr code) → code ≠ "" → ascii_only code →
         (String.length (toUpperCase code) = String.length code
          ∧ ∀ i c, string_chars code !! i = Some c →
                   string_chars (toUpperCase code) !! i
                   = Some (if bool_decide (97 ≤ nat_of_ascii c ≤ 122)
                           then ascii_of_nat (nat_of_ascii c - 32)
                           else c))
         ∧ (rooms st !! toUpperCase code = None
            ∧ roomMetadata st !! toUpperCase code = None →
            st' = st ∧ out = send env socket (ErrorMsg "Room not found"))
         ∧ (¬ (rooms st !! toUpperCase code = None
               ∧ roomMetadata st !! toUpperCase code = None) →
            socket ∈ members (toUpperCase code) st'
            ∧ members (toUpperCase code) st'
              = set_add socket (members (toUpperCase code) st)
            ∧ socketRoomId st' !! socket = Some (toUpperCase code)
            ∧ out = send env socket (JoinedRoom (toUpperCase code))
                    ++ broadcast env (members (toUpperCase code) st')
                         (λ _, UserCountUpdate (length (members (toUpperCase code) st'))))
         ∧ (isOpen env socket = true →
            ((socket, ErrorMsg "Room not found") ∈ out
             ↔ rooms st !! toUpperCase code = None
               ∧ roomMetadata st !! toUpperCase code = None))).
Proof.
  intros Ht. rewrite on_message_join by done.
  assert (∀ code, String.length (toUpperCase code) = String.length code
                  ∧ ∀ i c, string_chars code !! i = Some c →
                           string_chars (toUpperCase code) !! i
                           = Some (if bool_decide (97 ≤ nat_of_ascii c ≤ 122)
                                   then ascii_of_nat (nat_of_ascii c - 32)
                                   else c)) as Hkey.
  { intros code. split; [apply toUpperCase_length|]. intros i c Hc.
    by rewrite toUpperCase_chars, list_lookup_fmap, Hc, <- upper_ascii_spec. }
  assert (¬ (∃ code, prop message "roomId" = Some (JStr code) ∧ code ≠ "") →
          join_room env socket message st
          = (st, send env socket (ErrorMsg "Invalid room code"))) as Hinvalid.
  { intros Hno. unfold join_room.
    destruct (prop message "roomId") as [[| | |code| |]|]; try done.
    destruct (truthy (JStr code)) eqn:Htr; [|done].
    destruct Hno. exists code. split; [done|]. by apply truthy_JStr. }
  destruct (prop message "roomId") as [[| | |code| |]|] eqn:Hr;
    try (rewrite Hinvalid by (by intros (? & ? & _)); eexists _, _;
         split_and!; [done | done | by intros ? ?]).
  destruct (decide (code = "")) as [->|Hne].
  { rewrite Hinvalid by (by intros (? & [= <-] & ?)). eexists _, _.
    split_and!; [done | done | by intros ? [= <-] ?]. }
  rewrite (join_room_valid _ _ _ code) by done. set (k := toUpperCase code).
  destruct (room_known k st) eqn:Hk.
  - assert (¬ (rooms st !! k = None ∧ roomMetadata st !! k = None)) as Hex.
    { intros H%room_known_false. congruence. }
    rewrite joinRoom_known by done. fold k. eexists _, _. split; [done|].
    split; [intros Hall; by destruct (Hne (Hall code eq_refl))|].
    intros code' [= <-] _ _. fold k. rewrite members_joined_eq.
    split; [apply Hkey|]. split_and!.
    + intros H. by destruct Hex.
    + intros _. split_and!; [|done|simpl; by rewrite lookup_insert_eq|done].
      apply elem_of_set_add. by left.
    + intros Hopen. split; [|intros H; by destruct Hex].
      intros [(_ & [=] & _)%elem_of_send|(_ & _ & [=])%elem_of_broadcast]%elem_of_app.
  - apply room_known_false in Hk as Hnone.
    rewrite joinRoom_unknown by done. eexists _, _. split; [done|].
    split; [intros Hall; by destruct (Hne (Hall code eq_refl))|].
    intros code' [= <-] _ _. fold k.
    split; [apply Hkey|]. split_and!.
    + done.
    + intros H. by destruct H.
    + intros Hopen. split; [done|]. intros _. by apply elem_of_send.
Qed.

Lemma join_room_not_found_iff_witness :
  toUpperCase "ab12cd" = "AB12CD"
  ∧ rooms one_room_state !! "AB12CD" = Some [1]
  ∧ ∃ st' out,
      on_message (env_at 7) 9
        (Some (JObj [("type", JStr "join-room"); ("roomId", JStr "ab12cd")])) one_room_state
      = Some (st', out)
      ∧ ((∀ code, prop (JObj [("type", JStr "join-room"); ("roomId", JStr "ab12cd")]) "roomId"
                  = Some (JStr code) → code = "") →
         st' = one_room_state ∧ out = send (env_at 7) 9 (ErrorMsg "Invalid room code"))
      ∧ (∀ code,
           prop (JObj [("type", JStr "join-room"); ("roomId", JStr "ab12cd")]) "roomId"
           = Some (JStr code) → code ≠ "" → ascii_only code →
           (String.length (toUpperCase code) = String.length code
            ∧ ∀ i c, string_chars code !! i = Some c →
                     string_chars (toUpperCase code) !! i
                     = Some (if bool_decide (97 ≤ nat_of_ascii c ≤ 122)
                             then ascii_of_nat (nat_of_ascii c - 32)
                             else c))
           ∧ (rooms one_room_state !! toUpperCase code = None
              ∧ roomMetadata one_room_state !! toUpperCase code = None →
              st' = one_room_state ∧ out = send (env_at 7) 9 (ErrorMsg "Room not found"))
           ∧ (¬ (rooms one_room_state !! toUpperCase code = None
                 ∧ roomMetadata one_room_state !! toUpperCase code = None) →
              9 ∈ members (toUpperCase code) st'
              ∧ members (toUpperCase code) st'
                = set_add 9 (members (toUpperCase code) one_room_state)
              ∧ socketRoomId st' !! 9 = Some (toUpperCase code)
              ∧ out = send (env_at 7) 9 (JoinedRoom (toUpperCase code))
                      ++ broadcast (env_at 7) (members (toUpperCase code) st')
                           (λ _, UserCountUpdate (length (members (toUpperCase code) st'))))
           ∧ (isOpen (env_at 7) 9 = true →
              ((9, ErrorMsg "Room not found") ∈ out
               ↔ rooms one_room_state !! toUpperCase code = None
                 ∧ roomMetadata one_room_state !! toUpperCase code = None))).
Proof.
  split; [reflexivity|]. split; [vm_compute; reflexivity|].
  apply (join_room_not_found_iff (env_at 7) 9
           (JObj [("type", JStr "join-room"); ("roomId", JStr "ab12cd")]) one_room_state).
  reflexivity.
Defined.



Lemma room_known_true (k : string) (st : State) :
  room_known k st = true ↔ is_Some (rooms st !! k) ∨ is_Some (roomMetadata st !! k).
Proof. unfold room_known. by rewrite orb_true_iff, !bool_decide_eq_true. Qed.

(** C7: a successful [join-room] (the uppercased code has a membership set
    or a metadata entry) sends [user-count-update] to every member of the
    room whose socket is open, the joiner included, and the count it carries
    is the number of members after the join; no other socket gets one.  In
    particular, when the state is the outcome of a [create-room] with an
    explicit code for a room that had no members, and another socket joins
    under a spelling with the same uppercase form, the members are the
    creator and the joiner and both receive [userCount = 2]. *)
Theorem join_room_broadcasts_count (env : Env) (socket : Client) (message : json)
    (code : string) (st : State) :
  prop message "type" = Some (JStr "join-room") →
  prop message "roomId" = Some (JStr code) →
  code ≠ "" →
  is_Some (rooms st !! toUpperCase code) ∨ is_Some (roomMetadata st !! toUpperCase code) →
  ∃ st' out,
    on_message env socket (Some message) st = Some (st', out)
    ∧ socket ∈ members (toUpperCase code) st'
    ∧ (∀ c, c ∈ members (toUpperCase code) st' → isOpen env c = true →
            (c, UserCountUpdate (length (members (toUpperCase code) st'))) ∈ out)
    ∧ (∀ c n, (c, UserCountUpdate n) ∈ out →
              c ∈ members (toUpperCase code) st'
              ∧ n = length (members (toUpperCase code) st'))
    ∧ (isOpen env socket = true → (socket, JoinedRoom (toUpperCase code)) ∈ out)
    ∧ (∀ env0 creator m0 code0 st0 out0,
         prop m0 "type" = Some (JStr "create-room") →
         prop m0 "roomId" = Some (JStr code0) →
         code0 ≠ "" →
         toUpperCase code0 = toUpperCase code →
         members (toUpperCase code) st0 = [] →
         on_message env0 creator (Some m0) st0 = Some (st, out0) →
         creator ≠ socket →
         members (toUpperCase code) st' = [creator; socket]
         ∧ (isOpen env creator = true → (creator, UserCountUpdate 2) ∈ out)
         ∧ (isOpen env socket = true → (socket, UserCountUpdate 2) ∈ out)).
Proof.
  intros Ht Hr Hne Hk%room_known_true. set (k := toUpperCase code) in *.
  rewrite on_message_join, (join_room_valid _ _ _ code) by done.
  rewrite joinRoom_known by done. fold k. eexists _, _. split; [done|].
  rewrite members_joined_eq.
  assert (∀ c n, c ∈ set_add socket (members k st) → isOpen env c = true →
                 n = length (set_add socket (members k st)) →
                 (c, UserCountUpdate n)
                   ∈ send env socket (JoinedRoom k)
                     ++ broadcast env (set_add socket (members k st))
                          (λ _, UserCountUpdate (length (set_add socket (members k st)))))
    as Hsent.
  { intros c n Hc Hopen ->. apply elem_of_app. right. by apply elem_of_broadcast. }
  split_and!.
  - apply elem_of_set_add. by left.
  - intros c Hc Hopen. by apply Hsent.
  - intros c n [(_ & [=] & _)%elem_of_send|(Hc & _ & [= ->])%elem_of_broadcast]%elem_of_app.
    done.
  - intros Hopen. apply elem_of_app. left. by apply elem_of_send.
  - intros env0 creator m0 code0 st0 out0 Ht0 Hr0 Hne0 Hup Hempty Hcreate Hdiff.
    rewrite on_message_create, (create_room_explicit _ _ _ code0) in Hcreate by done.
    rewrite Hup in Hcreate. fold k in Hcreate. injection Hcreate as <- _.
    rewrite members_created_eq, Hempty.
    assert (set_add creator [] = [creator]) as -> by done.
    assert (set_add socket [creator] = [creator; socket]) as Hboth.
    { unfold set_add. rewrite decide_False; [done|].
      intros ?%list_elem_of_singleton. congruence. }
    rewrite members_created_eq, Hempty in Hsent.
    change (set_add creator []) with [creator] in Hsent. rewrite Hboth in Hsent |- *.
    split_and!; [done | |]; intros Hopen; apply Hsent; [set_solver|done..|set_solver|done|done].
Qed.

Lemma join_room_broadcasts_count_witness :
  ∃ st' out,
    on_message (env_at 1) 2
      (Some (JObj [("type", JStr "join-room"); ("roomId", JStr "ab12cd")])) one_room_state
    = Some (st', out)
    ∧ 2 ∈ members (toUpperCase "ab12cd") st'
    ∧ (∀ c, c ∈ members (toUpperCase "ab12cd") st' → isOpen (env_at 1) c = true →
            (c, UserCountUpdate (length (members (toUpperCase "ab12cd") st'))) ∈ out)
    ∧ (∀ c n, (c, UserCountUpdate n) ∈ out →
              c ∈ members (toUpperCase "ab12cd") st'
              ∧ n = length (members (toUpperCase "ab12cd") st'))
    ∧ (isOpen (env_at 1) 2 = true → (2, JoinedRoom (toUpperCase "ab12cd")) ∈ out)
    ∧ (∀ env0 creator m0 code0 st0 out0,
         prop m0 "type" = Some (JStr "create-room") →
         prop m0 "roomId" = Some (JStr code0) →
         code0 ≠ "" →
         toUpperCase code0 = toUpperCase "ab12cd" →
         members (toUpperCase "ab12cd") st0 = [] →
         on_message env0 creator (Some m0) st0 = Some (one_room_state, out0) →
         creator ≠ 2 →
         members (toUpperCase "ab12cd") st' = [creator; 2]
         ∧ (isOpen (env_at 1) creator = true → (creator, UserCountUpdate 2) ∈ out)
         ∧ (isOpen (env_at 1) 2 = true → (2, UserCountUpdate 2) ∈ out)).
Proof.
  apply (join_room_broadcasts_count (env_at 1) 2
           (JObj [("type", JStr "join-room"); ("roomId", JStr "ab12cd")])
           "ab12cd" one_room_state).
  - reflexivity.
  - reflexivity.
  - discriminate.
  - left. vm_compute. eexists. reflexivity.
Defined.

(** The scenario of the specification: X = 1 creates [AB12CD], Y = 2 joins
    [ab12cd]. *)
Example generated_code_example :
  generateShortCode [0; 1; 26; 27; 35; 36; 7] = Some ("AB019A", [7])
  ∧ on_message {| now := 5; isOpen := λ _, true;
                  draws := [0; 1; 27; 28; 2; 3; 25; 24; 23; 22; 21; 20] |}
      4 create_room_auto_msg
      {| rooms := ∅;
         roomMetadata := {[ "AB12CD" := {| created := 0; lastActivity := 0 |} ]};
         socketRoomId := ∅ |}
    = Some ({| rooms := {[ "ZYXWVU" := [4] ]};
               roomMetadata := {[ "AB12CD" := {| created := 0; lastActivity := 0 |};
                                  "ZYXWVU" := {| created := 5; lastActivity := 5 |} ]};
               socketRoomId := {[ 4 := "ZYXWVU" ]} |},
            [(4, RoomCreated "ZYXWVU" 1)])
  ∧ on_message (env_at 5) 4 create_room_auto_msg initial = None.
Proof. split_and!; vm_compute; reflexivity. Qed.

Example scenario_AB12CD :
  run [(env_at 0, Message 1 (create_room_msg "AB12CD"));
       (env_at 1, Message 2 (join_room_msg "ab12cd"))] initial
  = Some ({| rooms := {[ "AB12CD" := [1; 2] ]};
             roomMetadata := {[ "AB12CD" := {| created := 0; lastActivity := 1 |} ]};
             socketRoomId := {[ 1 := "AB12CD"; 2 := "AB12CD" ]} |},
          [(1, RoomCreated "AB12CD" 1); (2, JoinedRoom "AB12CD");
           (1, UserCountUpdate 2); (2, UserCountUpdate 2)]).
Proof. vm_compute. reflexivity. Qed.

(** ** Leaving and expiry *)



(** The leave scenario of the specification: the only member of a room
    disconnects; a join within the window succeeds, and after a sweep past
    the threshold the same join fails with [Room not found]. *)
Example leave_then_rejoin :
  run [(env_at 0, Message 1 (create_room_msg "AB12CD"));
       (env_at 1000, Close 1);
       (env_at 300000, Sweep);
       (env_at 300001, Message 2 (join_room_msg "AB12CD"))] initial
  = Some ({| rooms := {[ "AB12CD" := [2] ]};
             roomMetadata := {[ "AB12CD" := {| created := 0; lastActivity := 300001 |} ]};
             socketRoomId := {[ 1 := "AB12CD"; 2 := "AB12CD" ]} |},
          [(1, RoomCreated "AB12CD" 1); (2, JoinedRoom "AB12CD"); (2, UserCountUpdate 1)])
  ∧ run [(env_at 0, Message 1 (create_room_msg "AB12CD"));
         (env_at 1000, Close 1);
         (env_at 900000, Sweep);
         (env_at 900001, Message 2 (join_room_msg "AB12CD"))] initial
    = Some ({| rooms := ∅; roomMetadata := ∅; socketRoomId := {[ 1 := "AB12CD" ]} |},
            [(1, RoomCreated "AB12CD" 1); (2, ErrorMsg "Room not found")]).
Proof. split; vm_compute; reflexivity. Qed.

(** C9: for a room code with a metadata entry, a sweep pass deletes the
    entry exactly when the code's membership set is absent or empty and the
    time since [lastActivity] is greater than [expireTime] (ten minutes);
    the membership set is then gone too.  Otherwise the entry and the
    membership set are as before; this is the case of every room with a
    member, whatever the time. *)
Theorem sweep_deletes_exactly (env : Env) (st : State) (k : string) (m : Metadata) :
  roomMetadata st !! k = Some m →
  (roomMetadata (sweep env st) !! k = None
   ↔ (rooms st !! k = None ∨ rooms st !! k = Some [])
     ∧ (now env - lastActivity m > expireTime)%Z)
  ∧ ((rooms st !! k = None ∨ rooms st !! k = Some [])
     ∧ (now env - lastActivity m > expireTime)%Z →
     roomMetadata (sweep env st) !! k = None ∧ rooms (sweep env st) !! k = None)
  ∧ (¬ ((rooms st !! k = None ∨ rooms st !! k = Some [])
        ∧ (now env - lastActivity m > expireTime)%Z) →
     roomMetadata (sweep env st) !! k = Some m
     ∧ rooms (sweep env st) !! k = rooms st !! k)
  ∧ (∀ c l, rooms st !! k = Some (c :: l) →
     roomMetadata (sweep env st) !! k = Some m
     ∧ rooms (sweep env st) !! k = Some (c :: l)).
Proof.
  intros Hm. pose proof (sweep_lookup env st k) as H. rewrite Hm in H.
  pose proof (expired_true_iff (now env) k m st) as He.
  destruct (expired (now env) k m st); destruct H as [Hr Hmeta].
  - assert ((rooms st !! k = None ∨ rooms st !! k = Some [])
            ∧ (now env - lastActivity m > expireTime)%Z) as Hgone by (by apply He).
    split_and!; [by rewrite Hmeta | done | by intros [] |].
    intros c l Hl. rewrite Hl in Hgone. by destruct Hgone as [[?|?] _].
  - assert (¬ ((rooms st !! k = None ∨ rooms st !! k = Some [])
               ∧ (now env - lastActivity m > expireTime)%Z)) as Hkept.
    { intros Hgone%He. done. }
    split_and!; [rewrite Hmeta; by split | by intros ? | done |].
    intros c l Hl. by rewrite Hmeta, Hr.
Qed.

Lemma sweep_deletes_exactly_witness :
  (roomMetadata (sweep (env_at 9000000) one_room_state) !! "AB12CD" = None
   ↔ (rooms one_room_state !! "AB12CD" = None ∨ rooms one_room_state !! "AB12CD" = Some [])
     ∧ (now (env_at 9000000) - lastActivity {| created := 0; lastActivity := 0 |}
        > expireTime)%Z)
  ∧ ((rooms one_room_state !! "AB12CD" = None ∨ rooms one_room_state !! "AB12CD" = Some [])
     ∧ (now (env_at 9000000) - lastActivity {| created := 0; lastActivity := 0 |}
        > expireTime)%Z →
     roomMetadata (sweep (env_at 9000000) one_room_state) !! "AB12CD" = None
     ∧ rooms (sweep (env_at 9000000) one_room_state) !! "AB12CD" = None)
  ∧ (¬ ((rooms one_room_state !! "AB12CD" = None
         ∨ rooms one_room_state !! "AB12CD" = Some [])
        ∧ (now (env_at 9000000) - lastActivity {| created := 0; lastActivity := 0 |}
           > expireTime)%Z) →
     roomMetadata (sweep (env_at 9000000) one_room_state) !! "AB12CD"
     = Some {| created := 0; lastActivity := 0 |}
     ∧ rooms (sweep (env_at 9000000) one_room_state) !! "AB12CD"
       = rooms one_room_state !! "AB12CD")
  ∧ (∀ c l, rooms one_room_state !! "AB12CD" = Some (c :: l) →
     roomMetadata (sweep (env_at 9000000) one_room_state) !! "AB12CD"
     = Some {| created := 0; lastActivity := 0 |}
     ∧ rooms (sweep (env_at 9000000) one_room_state) !! "AB12CD" = Some (c :: l)).
Proof.
  apply (sweep_deletes_exactly (env_at 9000000) one_room_state "AB12CD"
           {| created := 0; lastActivity := 0 |}).
  vm_compute. reflexivity.
Defined.

(** The sweep on concrete registries: an empty room past the threshold is
    deleted, an occupied one of the same age is kept, and an empty one at
    the threshold itself is kept. *)
Example sweep_examples :
  sweep (env_at 600001)
    {| rooms := {[ "AB12CD" := [] ]};
       roomMetadata := {[ "AB12CD" := {| created := 0; lastActivity := 0 |} ]};
       socketRoomId := {[ 1 := "AB12CD" ]} |}
  = {| rooms := ∅; roomMetadata := ∅; socketRoomId := {[ 1 := "AB12CD" ]} |}
  ∧ sweep (env_at 600001) one_room_state = one_room_state
  ∧ sweep (env_at 600000)
      {| rooms := {[ "AB12CD" := [] ]};
         roomMetadata := {[ "AB12CD" := {| created := 0; lastActivity := 0 |} ]};
         socketRoomId := {[ 1 := "AB12CD" ]} |}
    = {| rooms := {[ "AB12CD" := [] ]};
         roomMetadata := {[ "AB12CD" := {| created := 0; lastActivity := 0 |} ]};
         socketRoomId := {[ 1 := "AB12CD" ]} |}.
Proof. split_and!; vm_compute; reflexivity. Qed.

(** ** Further properties: room codes *)

Lemma upper_ascii_idemp (c : ascii) : upper_ascii (upper_ascii c) = upper_ascii c.
Proof. destruct c as [[] [] [] [] [] [] [] []]; reflexivity. Qed.

Lemma toUpperCase_idemp (s : string) : toUpperCase (toUpperCase s) = toUpperCase s.
Proof.
  induction s as [|c s IH]; simpl; [done|]. by rewrite upper_ascii_idemp, IH.
Qed.

Lemma toUpperCase_app (s t : string) :
  toUpperCase (s +:+ t) = toUpperCase s +:+ toUpperCase t.
Proof. induction s as [|c s IH]; simpl; [done | by rewrite IH]. Qed.

Lemma string_chars_app (s t : string) :
  string_chars (s +:+ t) = string_chars s ++ string_chars t.
Proof. induction s as [|c s IH]; simpl; [done | by rewrite IH]. Qed.

Lemma string_chars_length (s : string) : length (string_chars s) = String.length s.
Proof. induction s as [|c s IH]; simpl; [done | by rewrite IH]. Qed.

(** A character drawn from [chars]: one symbol of the alphabet, which
    [toUpperCase] leaves as it is. *)
Lemma charAt_chars_spec (d : nat) :
  ∃ c, charAt chars (d mod String.length chars) = String c EmptyString
       ∧ c ∈ string_chars chars
       ∧ upper_ascii c = c.
Proof.
  assert (d mod String.length chars < 36) as Hlt
    by (apply Nat.mod_upper_bound; done).
  revert Hlt. generalize (d mod String.length chars). intros i Hi.
  do 36 (destruct i as [|i];
         [eexists; split_and!; [reflexivity | simpl; set_solver | reflexivity]|]).
  lia.
Qed.

Lemma foldl_append_chars (g : nat → string) (l : list nat) (acc : string) :
  (∀ d, ∃ c, g d = String c EmptyString ∧ c ∈ string_chars chars ∧ upper_ascii c = c) →
  toUpperCase acc = acc →
  Forall (λ c, c ∈ string_chars chars) (string_chars acc) →
  toUpperCase (foldl (λ result d, result +:+ g d) acc l)
  = foldl (λ result d, result +:+ g d) acc l
  ∧ Forall (λ c, c ∈ string_chars chars)
      (string_chars (foldl (λ result d, result +:+ g d) acc l)).
Proof.
  intros Hg. revert acc. induction l as [|d l IH]; intros acc Hup Hall; simpl; [done|].
  destruct (Hg d) as (c & Hc & Hin & Hupc). apply IH.
  - rewrite toUpperCase_app, Hup, Hc. simpl. by rewrite Hupc.
  - rewrite string_chars_app, Hc. apply Forall_app. split; [done|].
    simpl. by apply Forall_singleton.
Qed.

Lemma generateShortCode_canonical (ds rest : list nat) (code : string) :
  generateShortCode ds = Some (code, rest) →
  toUpperCase code = code ∧ Forall (λ c, c ∈ string_chars chars) (string_chars code).
Proof.
  unfold generateShortCode. destruct (decide (6 ≤ length ds)) as [Hlen|]; [|done].
  intros [= <- _].
  apply (foldl_append_chars (λ d, charAt chars (d mod String.length chars)));
    [apply charAt_chars_spec | done | constructor].
Qed.

Lemma fresh_code_canonical (fuel : nat) (ds : list nat) (st : State) (code : string) :
  fresh_code fuel ds st = Some code → toUpperCase code = code.
Proof.
  revert ds. induction fuel as [|fuel IH]; intros ds; simpl; [done|].
  destruct (generateShortCode ds) as [[c rest]|] eqn:Hg; [|done].
  destruct (room_known c st); [apply IH|].
  intros [= <-]. by eapply generateShortCode_canonical.
Qed.

(** ** Further properties: what a [message] event does *)

Lemma create_room_canonical (env : Env) (socket : Client) (message : json) (st st' : State)
    (out : list (Client * ServerMsg)) :
  create_room env socket message st = Some (st', out) →
  ∃ k, k ≠ "" ∧ toUpperCase k = k
       ∧ st' = created_state env socket k st
       ∧ out = send env socket (RoomCreated k (length (members k st'))).
Proof.
  unfold create_room. intros H.
  apply bind_Some in H as (k & Hk & [= <- <-]).
  exists k.
  assert (k ≠ "" ∧ toUpperCase k = k) as [Hne Hup].
  { assert (fresh_code (length (draws env)) (draws env) st = Some k →
            k ≠ "" ∧ toUpperCase k = k) as Hfresh.
    { intros Hf. split; [|by eapply fresh_code_canonical].
      apply fresh_code_spec in Hf as [Hlen _]. by intros ->. }
    destruct (prop message "roomId") as [[| | |s| |]|]; try by apply Hfresh.
    destruct (truthy (JStr s)) eqn:Ht; [|by apply Hfresh].
    injection Hk as <-. split; [|apply toUpperCase_idemp].
    by apply toUpperCase_nonempty, truthy_JStr. }
  split_and!; [done..|].
  fold (created_state env socket k st). rewrite members_created_eq.
  by rewrite room_size_add_ensure.
Qed.

Ltac error_text := unfold error_texts; repeat first [by left | right].

(** The four outcomes of a [message] event: an error reply, a creation, a
    join, a chat broadcast. *)
Lemma on_message_cases (env : Env) (socket : Client) (data : option json) (st st' : State)
    (out : list (Client * ServerMsg)) :
  on_message env socket data st = Some (st', out) →
  (st' = st ∧ ∃ e, e ∈ error_texts ∧ out = send env socket (ErrorMsg e))
  ∨ (∃ k, k ≠ "" ∧ toUpperCase k = k
          ∧ st' = created_state env socket k st
          ∧ out = send env socket (RoomCreated k (length (members k st'))))
  ∨ (∃ k, k ≠ "" ∧ toUpperCase k = k ∧ room_known k st = true
          ∧ st' = joined_state env socket k st
          ∧ out = send env socket (JoinedRoom k)
                  ++ broadcast env (members k st')
                       (λ _, UserCountUpdate (length (members k st'))))
  ∨ (st' = st
     ∧ ∃ roomId content sender l,
         rooms st !! toUpperCase roomId = Some l
         ∧ out = broadcast env l
                   (λ c, ChatMessage content sender (bool_decide (c = socket)))).
Proof.
  assert (∀ e, e ∈ error_texts →
               Some (st, send env socket (ErrorMsg e)) = Some (st', out) →
               st' = st ∧ ∃ e, e ∈ error_texts ∧ out = send env socket (ErrorMsg e)) as Herr.
  { intros e He [= <- <-]. eauto. }
  unfold on_message. destruct data as [message|];
    [|intros H; left; apply (Herr "Invalid message"); [error_text|done]].
  destruct (negb (truthy message) || negb (String.eqb (typeof message) "object"));
    [intros H; left; apply (Herr "Invalid message"); [error_text|done]|].
  destruct (prop message "type") as [[| | |t| |]|];
    try (intros H; left; apply (Herr "Unknown message type"); [error_text|done]).
  destruct (String.eqb t "create-room").
  { intros Hc%create_room_canonical. right; left. done. }
  destruct (String.eqb t "join-room").
  { unfold join_room.
    destruct (prop message "roomId") as [[| | |code| |]|];
      try (intros H; left; apply (Herr "Invalid room code"); [error_text|done]).
    destruct (truthy (JStr code)) eqn:Ht; simpl;
      [|intros H; left; apply (Herr "Invalid room code"); [error_text|done]].
    destruct (room_known (toUpperCase code) st) eqn:Hk.
    - rewrite joinRoom_known by done. intros [= <- <-]. right; right; left.
      exists (toUpperCase code). rewrite members_joined_eq.
      split_and!; [|apply toUpperCase_idemp|done..].
      by apply toUpperCase_nonempty, truthy_JStr.
    - rewrite joinRoom_unknown by done.
      intros H; left; apply (Herr "Room not found"); [error_text|done]. }
  destruct (String.eqb t "chat-message");
    [|intros H; left; apply (Herr "Unknown message type"); [error_text|done]].
  destruct (chat_message_cases env socket message st) as [->|(r & c & s & _ & _ & _ & ->)].
  { intros H; left; apply (Herr "Invalid chat message format"); [error_text|done]. }
  unfold broadcastChat. destruct (rooms st !! toUpperCase r) as [l|] eqn:Hl.
  - intros [= <- <-]. right; right; right. split; [done|]. by exists r, c, s, l.
  - intros H; left; apply (Herr "Room not found"); [error_text|done].
Qed.

(** ** Further properties: invariants of the registry *)

Lemma registry_inv_initial : registry_inv initial.
Proof.
  unfold registry_inv, members. simpl. split_and!.
  - intros k. rewrite lookup_empty. by intros [? ?].
  - intros k. rewrite lookup_empty. by intros [? ?].
  - intros c k. by rewrite lookup_empty.
  - intros k c. rewrite lookup_empty. by intros ?%elem_of_nil.
Qed.

Lemma registry_inv_add (socket : Client) (k : string) (st st' : State) :
  registry_inv st → k ≠ "" → toUpperCase k = k →
  rooms st' = add_member k socket (ensure_room k (rooms st)) →
  socketRoomId st' = <[socket := k]> (socketRoomId st) →
  (∀ k', k' ≠ k → is_Some (roomMetadata st' !! k') → is_Some (roomMetadata st !! k')) →
  registry_inv st'.
Proof.
  intros (Hagree & Hkeys & Hbound & Hlisted) Hk Hup Hr Hs Hm.
  assert (∀ k', k' ≠ k → rooms st' !! k' = rooms st !! k') as Hother.
  { intros k' Hne. rewrite Hr. by apply lookup_add_ensure_ne. }
  assert (is_Some (rooms st' !! k)) as Hnew.
  { rewrite Hr, lookup_add_ensure_eq. done. }
  split_and!.
  - intros k' Hk'. destruct (decide (k' = k)) as [->|Hne]; [done|].
    rewrite Hother by done. by apply Hagree, Hm.
  - intros k' Hk'. destruct (decide (k' = k)) as [->|Hne]; [done|].
    rewrite Hother in Hk' by done. by apply Hkeys.
  - intros c k'. rewrite Hs. destruct (decide (socket = c)) as [<-|Hne].
    + rewrite lookup_insert_eq. by intros [= <-].
    + rewrite lookup_insert_ne by done. apply Hbound.
  - intros k' c. rewrite Hs. unfold members.
    destruct (decide (socket = c)) as [<-|Hne]; [by rewrite lookup_insert_eq|].
    rewrite lookup_insert_ne by done.
    destruct (decide (k' = k)) as [->|Hne'].
    + rewrite Hr, lookup_add_ensure_eq. simpl.
      intros [?|Hc]%elem_of_set_add; [done|]. by apply (Hlisted k).
    + rewrite Hother by done. apply Hlisted.
Qed.

Lemma registry_inv_created (env : Env) (socket : Client) (k : string) (st : State) :
  registry_inv st → k ≠ "" → toUpperCase k = k →
  registry_inv (created_state env socket k st).
Proof.
  intros Hinv Hk Hup. eapply registry_inv_add; [done..|].
  intros k' Hne. simpl. by rewrite lookup_insert_ne.
Qed.

Lemma registry_inv_joined (env : Env) (socket : Client) (k : string) (st : State) :
  registry_inv st → k ≠ "" → toUpperCase k = k →
  registry_inv (joined_state env socket k st).
Proof.
  intros Hinv Hk Hup. eapply registry_inv_add; [done..|].
  intros k' Hne. simpl. by rewrite lookup_alter_is_Some.
Qed.

Lemma registry_inv_on_close (env : Env) (socket : Client) (st : State) :
  registry_inv st → registry_inv (on_close env socket st).1.
Proof.
  intros (Hagree & Hkeys & Hbound & Hlisted).
  destruct (on_close_frame env socket st) as (Hm & Hs & Hr).
  assert (∀ k, is_Some (rooms (on_close env socket st).1 !! k) ↔ is_Some (rooms st !! k))
    as Hsome.
  { intros k. destruct (Hr k) as [->|(l & Hl & ->)]; [done|]. rewrite Hl. by split. }
  split_and!.
  - intros k. rewrite Hm, Hsome. apply Hagree.
  - intros k. rewrite Hsome. apply Hkeys.
  - rewrite Hs. apply Hbound.
  - intros k c. rewrite Hs. unfold members.
    destruct (Hr k) as [->|(l & Hl & ->)]; [apply Hlisted|]. simpl.
    intros [Hc _]%elem_of_set_delete. apply (Hlisted k). unfold members.
    by rewrite Hl.
Qed.

(** The sweep only removes: what is in a table afterwards was there
    before, with the same value. *)
Lemma sweep_only_removes (env : Env) (st : State) (k : string) :
  (∀ l, rooms (sweep env st) !! k = Some l → rooms st !! k = Some l)
  ∧ (∀ m, roomMetadata (sweep env st) !! k = Some m → roomMetadata st !! k = Some m)
  ∧ (is_Some (roomMetadata (sweep env st) !! k) →
     rooms (sweep env st) !! k = rooms st !! k)
  ∧ (is_Some (rooms st !! k) → is_Some (roomMetadata st !! k) →
     is_Some (rooms (sweep env st) !! k) → is_Some (roomMetadata (sweep env st) !! k)).
Proof.
  pose proof (sweep_lookup env st k) as H.
  destruct (roomMetadata st !! k) as [m|] eqn:Hm.
  - destruct (expired (now env) k m st); destruct H as [-> ->].
    + split_and!; [done | done | by intros [? ?] | by intros _ _ [? ?]].
    + split_and!; done.
  - destruct H as [-> ->]. split_and!; [done | done | by intros [? ?] | by intros _ [? ?]].
Qed.

Lemma registry_inv_sweep (env : Env) (st : State) :
  registry_inv st → registry_inv (sweep env st).
Proof.
  intros (Hagree & Hkeys & Hbound & Hlisted).
  assert (socketRoomId (sweep env st) = socketRoomId st) as Hs
    by apply foldl_sweep_room_socketRoomId.
  split_and!.
  - intros k Hk. destruct (sweep_only_removes env st k) as (_ & Hm & Hr & _).
    rewrite Hr by done. apply Hagree. destruct Hk as [m Hk]. exists m. by apply Hm.
  - intros k [l Hl]. apply Hkeys. exists l. by apply (sweep_only_removes env st k).
  - rewrite Hs. apply Hbound.
  - intros k c. rewrite Hs. unfold members.
    destruct (rooms (sweep env st) !! k) as [l|] eqn:Hl; simpl;
      [|by intros ?%elem_of_nil].
    apply (sweep_only_removes env st k) in Hl. intros Hc. apply (Hlisted k).
    unfold members. by rewrite Hl.
Qed.

Lemma registry_inv_step (env : Env) (ev : Event) (st st' : State)
    (out : list (Client * ServerMsg)) :
  registry_inv st → step env ev st = Some (st', out) → registry_inv st'.
Proof.
  intros Hinv. destruct ev as [socket data|socket|]; simpl.
  - intros [[-> _]|[(k & Hk & Hup & -> & _)|[(k & Hk & Hup & _ & -> & _)|[-> _]]]]%on_message_cases;
      [done | by apply registry_inv_created | by apply registry_inv_joined | done].
  - intros [= Hc]. pose proof (registry_inv_on_close env socket st Hinv) as H.
    by rewrite Hc in H.
  - intros [= <- _]. by apply registry_inv_sweep.
Qed.

Lemma reachable_registry_inv (st : State) : reachable st → registry_inv st.
Proof.
  induction 1 as [|st env ev st' out _ IH Hstep]; [apply registry_inv_initial|].
  by eapply registry_inv_step.
Qed.

(** The two tables of a reachable registry have the same keys: a room code
    has a membership set exactly when it has a metadata entry.  So the
    lookup of [join-room] ([rooms[k] || roomMetadata[k]]) and the lookup of
    [chat-message] ([rooms[k]]) find the same rooms, and the sweep, which
    walks the metadata keys, visits every membership set. *)
Theorem tables_same_keys (st : State) (k : string) :
  reachable st →
  (is_Some (rooms st !! k) ↔ is_Some (roomMetadata st !! k))
  ∧ room_known k st = bool_decide (is_Some (rooms st !! k))
  ∧ (k ∈ metadata_keys st ↔ is_Some (rooms st !! k)).
Proof.
  intros Hreach.
  pose proof (reachable_wf st Hreach) as (_ & _ & Hhas).
  pose proof (reachable_registry_inv st Hreach) as (Hagree & _).
  assert (is_Some (rooms st !! k) ↔ is_Some (roomMetadata st !! k)) as Hiff
    by (split; [apply Hhas | apply Hagree]).
  split_and!; [done| |].
  - unfold room_known.
    destruct (bool_decide (is_Some (rooms st !! k))) eqn:Hr; [done|]. simpl.
    apply bool_decide_eq_false. apply bool_decide_eq_false in Hr. by rewrite <- Hiff.
  - rewrite Hiff. unfold metadata_keys. rewrite list_elem_of_fmap. split.
    + intros ([k' m] & -> & Hm%elem_of_map_to_list). by exists m.
    + intros [m Hm]. exists (k, m). split; [done|]. by apply elem_of_map_to_list.
Qed.

Lemma tables_same_keys_witness :
  reachable crossed_state
  ∧ (is_Some (rooms crossed_state !! "ROOMAA") ↔ is_Some (roomMetadata crossed_state !! "ROOMAA"))
  ∧ room_known "ROOMAA" crossed_state
    = bool_decide (is_Some (rooms crossed_state !! "ROOMAA"))
  ∧ ("ROOMAA" ∈ metadata_keys crossed_state ↔ is_Some (rooms crossed_state !! "ROOMAA")).
Proof.
  split; [apply crossed_reachable|].
  apply (tables_same_keys crossed_state "ROOMAA"). apply crossed_reachable.
Defined.

(** Room codes are canonical: in a reachable registry every key of the two
    tables and every room code stored in a socket is non-empty and unchanged
    by [toUpperCase], so the [close] handler and the sweep, which use the
    stored code without uppercasing it, address the room that [join-room]
    and [chat-message] address after uppercasing; and every socket listed in
    a membership set has a [roomId]. *)
Theorem room_codes_canonical (st : State) :
  reachable st →
  (∀ k, is_Some (rooms st !! k) ∨ is_Some (roomMetadata st !! k) →
        toUpperCase k = k ∧ k ≠ "")
  ∧ (∀ c k, socketRoomId st !! c = Some k → toUpperCase k = k ∧ k ≠ "")
  ∧ (∀ k c, c ∈ members k st → is_Some (socketRoomId st !! c)).
Proof.
  intros Hreach.
  pose proof (reachable_registry_inv st Hreach) as (Hagree & Hkeys & Hbound & Hlisted).
  split_and!; [|done..].
  intros k [Hk|Hk]; [by apply Hkeys | by apply Hkeys, Hagree].
Qed.

Lemma room_codes_canonical_witness :
  reachable crossed_state
  ∧ (∀ k, is_Some (rooms crossed_state !! k) ∨ is_Some (roomMetadata crossed_state !! k) →
          toUpperCase k = k ∧ k ≠ "")
  ∧ (∀ c k, socketRoomId crossed_state !! c = Some k → toUpperCase k = k ∧ k ≠ "")
  ∧ (∀ k c, c ∈ members k crossed_state → is_Some (socketRoomId crossed_state !! c)).
Proof.
  split; [apply crossed_reachable|].
  apply (room_codes_canonical crossed_state). apply crossed_reachable.
Defined.

(** ** Further properties: the code generator and generated rooms *)

(** [generateShortCode] uses six draws and returns six characters of the
    36-symbol alphabet, a string that [toUpperCase] leaves as it is. *)
Theorem generated_code_shape (ds : list nat) :
  6 ≤ length ds →
  ∃ code,
    generateShortCode ds = Some (code, drop 6 ds)
    ∧ String.length code = 6
    ∧ Forall (λ c, c ∈ string_chars chars) (string_chars code)
    ∧ toUpperCase code = code.
Proof.
  intros Hlen.
  assert (∃ code, generateShortCode ds = Some (code, drop 6 ds)) as [code Hg].
  { unfold generateShortCode. rewrite decide_True by done. eauto. }
  exists code. split; [done|].
  destruct (generateShortCode_canonical _ _ _ Hg) as [Hup Hall].
  split_and!; [by eapply generateShortCode_length | done | done].
Qed.

Lemma generated_code_shape_witness :
  ∃ code,
    generateShortCode [0; 1; 26; 27; 35; 36; 7] = Some (code, drop 6 [0; 1; 26; 27; 35; 36; 7])
    ∧ String.length code = 6
    ∧ Forall (λ c, c ∈ string_chars chars) (string_chars code)
    ∧ toUpperCase code = code.
Proof.
  apply (generated_code_shape [0; 1; 26; 27; 35; 36; 7]). simpl. lia.
Defined.

Lemma fresh_code_first (ds rest : list nat) (st : State) (code : string) :
  generateShortCode ds = Some (code, rest) → room_known code st = false →
  fresh_code (length ds) ds st = Some code.
Proof.
  intros Hg Hk. destruct ds as [|d ds]; [done|]. simpl length.
  cbn [fresh_code]. by rewrite Hg, Hk.
Qed.

(** [create-room] without a usable [roomId] (absent, not a string, or the
    empty string) takes its code from the generator.  When the handler
    returns, the code has six characters and had no entry in either table,
    the caller is the only member of the new room, the acknowledgement
    carries [userCount = 1], and the entries of every other room code are
    untouched.  It returns at the first candidate when that one is free. *)
Theorem create_room_generated (env : Env) (socket : Client) (message : json) (st : State) :
  prop message "type" = Some (JStr "create-room") →
  (∀ s, prop message "roomId" = Some (JStr s) → s = "") →
  (∀ st' out,
     on_message env socket (Some message) st = Some (st', out) →
     ∃ k, String.length k = 6
          ∧ rooms st !! k = None ∧ roomMetadata st !! k = None
          ∧ rooms st' !! k = Some [socket]
          ∧ roomMetadata st' !! k = Some {| created := now env; lastActivity := now env |}
          ∧ socketRoomId st' !! socket = Some k
          ∧ out = send env socket (RoomCreated k 1)
          ∧ ∀ k', k' ≠ k →
              rooms st' !! k' = rooms st !! k'
              ∧ roomMetadata st' !! k' = roomMetadata st !! k')
  ∧ (∀ code rest,
       generateShortCode (draws env) = Some (code, rest) →
       room_known code st = false →
       on_message env socket (Some message) st
       = Some (created_state env socket code st, send env socket (RoomCreated code 1))).
Proof.
  intros Ht Hr. rewrite on_message_create by done.
  assert (create_room env socket message st
          = k ← fresh_code (length (draws env)) (draws env) st;
            Some (created_state env socket k st,
                  send env socket (RoomCreated k (length (set_add socket (members k st))))))
    as Hcreate.
  { unfold create_room.
    assert ((match prop message "roomId" with
             | Some (JStr customRoomId) =>
                 if truthy (JStr customRoomId)
                 then Some (toUpperCase customRoomId)
                 else fresh_code (length (draws env)) (draws env) st
             | _ => fresh_code (length (draws env)) (draws env) st
             end) = fresh_code (length (draws env)) (draws env) st) as ->.
    { destruct (prop message "roomId") as [[| | |s| |]|]; try done.
      by rewrite (Hr s eq_refl). }
    destruct (fresh_code (length (draws env)) (draws env) st) as [k|]; simpl; [|done].
    by rewrite room_size_add_ensure. }
  rewrite Hcreate.
  assert (∀ k, room_known k st = false →
               set_add socket (members k st) = [socket]) as Hsole.
  { intros k [Hk _]%room_known_false. unfold members. by rewrite Hk. }
  split.
  - intros st' out H. apply bind_Some in H as (k & Hk & [= <- <-]).
    apply fresh_code_spec in Hk as [Hlen Hknown]. exists k.
    pose proof Hknown as [Hrk Hmk]%room_known_false.
    rewrite (Hsole k Hknown). simpl. split_and!; [done..| | | |done|].
    + by rewrite lookup_add_ensure_eq, Hrk.
    + by rewrite lookup_insert_eq.
    + by rewrite lookup_insert_eq.
    + intros k' Hne. rewrite lookup_add_ensure_ne, lookup_insert_ne by done. done.
  - intros code rest Hg Hknown.
    rewrite (fresh_code_first _ rest _ code) by done. simpl.
    by rewrite (Hsole code Hknown).
Qed.

Lemma create_room_generated_witness :
  (∀ st' out,
     on_message {| now := 5; isOpen := λ _, true; draws := [25; 24; 23; 22; 21; 20] |} 4
       (Some (JObj [("type", JStr "create-room")])) one_room_state = Some (st', out) →
     ∃ k, String.length k = 6
          ∧ rooms one_room_state !! k = None ∧ roomMetadata one_room_state !! k = None
          ∧ rooms st' !! k = Some [4]
          ∧ roomMetadata st' !! k = Some {| created := 5; lastActivity := 5 |}
          ∧ socketRoomId st' !! 4 = Some k
          ∧ out = send {| now := 5; isOpen := λ _, true; draws := [25; 24; 23; 22; 21; 20] |}
                    4 (RoomCreated k 1)
          ∧ ∀ k', k' ≠ k →
              rooms st' !! k' = rooms one_room_state !! k'
              ∧ roomMetadata st' !! k' = roomMetadata one_room_state !! k')
  ∧ (∀ code rest,
       generateShortCode [25; 24; 23; 22; 21; 20] = Some (code, rest) →
       room_known code one_room_state = false →
       on_message {| now := 5; isOpen := λ _, true; draws := [25; 24; 23; 22; 21; 20] |} 4
         (Some (JObj [("type", JStr "create-room")])) one_room_state
       = Some (created_state
                 {| now := 5; isOpen := λ _, true; draws := [25; 24; 23; 22; 21; 20] |}
                 4 code one_room_state,
               send {| now := 5; isOpen := λ _, true; draws := [25; 24; 23; 22; 21; 20] |}
                 4 (RoomCreated code 1))).
Proof.
  apply (create_room_generated
           {| now := 5; isOpen := λ _, true; draws := [25; 24; 23; 22; 21; 20] |} 4
           (JObj [("type", JStr "create-room")]) one_room_state).
  - reflexivity.
  - intros s H. discriminate H.
Defined.

(** ** Further properties: the frames the server sends *)

Lemma on_close_out (env : Env) (socket : Client) (st : State) (c : Client) (m : ServerMsg) :
  (c, m) ∈ (on_close env socket st).2 →
  ∃ k, socketRoomId st !! socket = Some k
       ∧ c ∈ members k (on_close env socket st).1
       ∧ isOpen env c = true
       ∧ m = UserCountUpdate (length (members k (on_close env socket st).1))
       ∧ 0 < length (members k (on_close env socket st).1).
Proof.
  unfold on_close.
  destruct (socketRoomId st !! socket) as [k|]; [|by intros ?%elem_of_nil].
  destruct (truthy (JStr k)); [|by intros ?%elem_of_nil].
  destruct (rooms st !! k) as [l|] eqn:Hl; [|by intros ?%elem_of_nil].
  cbn [fst snd]. unfold room_size, members. cbn [rooms].
  destruct (decide (0 < length (default [] (alter (set_delete socket) k (rooms st) !! k))))
    as [Hpos|]; [|by intros ?%elem_of_nil].
  intros (Hc & Hopen & ->)%elem_of_broadcast. exists k. done.
Qed.

(** An [error] frame is never a broadcast and never comes with a change:
    when the reply to a frame contains an error, that error is the whole
    output, it goes to the socket the frame came from, the registry is as
    before, and its text is one of the five the server knows. *)
Theorem error_reply_only (env : Env) (socket : Client) (data : option json)
    (st st' : State) (out : list (Client * ServerMsg)) (c : Client) (e : string) :
  on_message env socket data st = Some (st', out) →
  (c, ErrorMsg e) ∈ out →
  c = socket ∧ st' = st ∧ out = [(socket, ErrorMsg e)] ∧ e ∈ error_texts.
Proof.
  intros [(-> & e' & He' & ->)|[(k & _ & _ & _ & ->)|[(k & _ & _ & _ & _ & ->)
                               |(_ & r & ct & sd & l & _ & ->)]]]%on_message_cases Hin.
  - apply elem_of_send in Hin as (-> & [= ->] & Hopen).
    unfold send. rewrite Hopen. done.
  - by apply elem_of_send in Hin as (_ & [=] & _).
  - apply elem_of_app in Hin as [(_ & [=] & _)%elem_of_send|(_ & _ & [=])%elem_of_broadcast].
  - by apply elem_of_broadcast in Hin as (_ & _ & [=]).
Qed.

Lemma error_reply_only_witness :
  9 = 9 ∧ one_room_state = one_room_state
  ∧ [(9, ErrorMsg "Room not found")] = [(9, ErrorMsg "Room not found")]
  ∧ "Room not found" ∈ error_texts.
Proof.
  apply (error_reply_only (env_at 7) 9 (join_room_msg "zz99zz") one_room_state
           one_room_state [(9, ErrorMsg "Room not found")] 9 "Room not found").
  - vm_compute. reflexivity.
  - left.
Defined.

(** The server never hands a frame to a socket whose [readyState] is not
    [OPEN], whatever the event. *)
Theorem frames_only_to_open_sockets (env : Env) (ev : Event) (st st' : State)
    (out : list (Client * ServerMsg)) (c : Client) (m : ServerMsg) :
  step env ev st = Some (st', out) →
  (c, m) ∈ out →
  isOpen env c = true.
Proof.
  destruct ev as [socket data|socket|]; simpl.
  - intros [(_ & e' & _ & ->)|[(k & _ & _ & _ & ->)|[(k & _ & _ & _ & _ & ->)
                              |(_ & r & ct & sd & l & _ & ->)]]]%on_message_cases Hin.
    + by apply elem_of_send in Hin as (-> & _ & ?).
    + by apply elem_of_send in Hin as (-> & _ & ?).
    + apply elem_of_app in Hin as [(-> & _ & ?)%elem_of_send|(_ & ? & _)%elem_of_broadcast];
        done.
    + by apply elem_of_broadcast in Hin as (_ & ? & _).
  - intros [= Hc] Hin.
    assert (out = (on_close env socket st).2) as -> by (by rewrite Hc).
    by apply on_close_out in Hin as (_ & _ & _ & ? & _).
  - intros [= _ <-] Hin. by apply elem_of_nil in Hin.
Qed.

Lemma frames_only_to_open_sockets_witness : isOpen (env_at 2) 2 = true.
Proof.
  apply (frames_only_to_open_sockets (env_at 2) (Message 1 (join_room_msg "ROOMBB"))
           two_rooms_state rejoin_state
           [(1, JoinedRoom "ROOMBB"); (2, UserCountUpdate 2); (1, UserCountUpdate 2)]
           2 (UserCountUpdate 2)).
  - apply rejoin_step.
  - right. left.
Defined.

(** Every count the server sends is the size of a room the recipient is
    listed in, after the event, and is at least 1: a [user-count-update]
    goes to a member of the room whose size it carries, and a [room-created]
    goes to the caller with the size of the room it is now bound to. *)
Theorem counts_are_room_sizes (env : Env) (ev : Event) (st st' : State)
    (out : list (Client * ServerMsg)) (c : Client) :
  step env ev st = Some (st', out) →
  (∀ n, (c, UserCountUpdate n) ∈ out →
        ∃ k, c ∈ members k st' ∧ n = length (members k st') ∧ 1 ≤ n)
  ∧ (∀ k n, (c, RoomCreated k n) ∈ out →
            c ∈ members k st' ∧ n = length (members k st') ∧ 1 ≤ n
            ∧ socketRoomId st' !! c = Some k).
Proof.
  assert (∀ (l : list Client) x, x ∈ l → 1 ≤ length l) as Hpos.
  { intros l x Hx. destruct l; [by apply elem_of_nil in Hx | simpl; lia]. }
  destruct ev as [socket data|socket|]; simpl.
  - intros [(_ & e' & _ & ->)|[(k & _ & _ & -> & ->)|[(k & _ & _ & _ & -> & ->)
                              |(_ & r & ct & sd & l & _ & ->)]]]%on_message_cases.
    + split; [intros n Hin | intros k n Hin];
        by apply elem_of_send in Hin as (_ & [=] & _).
    + rewrite members_created_eq. split.
      * intros n Hin. by apply elem_of_send in Hin as (_ & [=] & _).
      * intros k' n (-> & [= -> ->] & _)%elem_of_send.
        assert (socket ∈ set_add socket (members k st)) as Hs
          by (apply elem_of_set_add; by left).
        rewrite members_created_eq. split_and!; [done | done | by eapply Hpos |].
        simpl. by rewrite lookup_insert_eq.
    + rewrite members_joined_eq. split.
      * intros n [(_ & [=] & _)%elem_of_send|(Hc & _ & [= ->])%elem_of_broadcast]%elem_of_app.
        exists k. rewrite members_joined_eq. split_and!; [done | done | by eapply Hpos].
      * intros k' n [(_ & [=] & _)%elem_of_send|(_ & _ & [=])%elem_of_broadcast]%elem_of_app.
    + split; [intros n Hin | intros k n Hin];
        by apply elem_of_broadcast in Hin as (_ & _ & [=]).
  - intros [= Hc].
    assert (st' = (on_close env socket st).1) as -> by (by rewrite Hc).
    assert (out = (on_close env socket st).2) as -> by (by rewrite Hc).
    split.
    + intros n (k & _ & Hin & _ & [= ->] & Hlen)%on_close_out. exists k.
      split_and!; [done | done | lia].
    + intros k n (_ & _ & _ & _ & [=] & _)%on_close_out.
  - intros [= _ <-]. split; [intros n Hin | intros k n Hin]; by apply elem_of_nil in Hin.
Qed.

Lemma counts_are_room_sizes_witness :
  (∀ n, (2, UserCountUpdate n)
          ∈ [(1, JoinedRoom "ROOMBB"); (2, UserCountUpdate 2); (1, UserCountUpdate 2)] →
        ∃ k, 2 ∈ members k rejoin_state ∧ n = length (members k rejoin_state) ∧ 1 ≤ n)
  ∧ (∀ k n, (2, RoomCreated k n)
              ∈ [(1, JoinedRoom "ROOMBB"); (2, UserCountUpdate 2); (1, UserCountUpdate 2)] →
            2 ∈ members k rejoin_state ∧ n = length (members k rejoin_state) ∧ 1 ≤ n
            ∧ socketRoomId rejoin_state !! 2 = Some k).
Proof.
  apply (counts_are_room_sizes (env_at 2) (Message 1 (join_room_msg "ROOMBB"))
           two_rooms_state rejoin_state
           [(1, JoinedRoom "ROOMBB"); (2, UserCountUpdate 2); (1, UserCountUpdate 2)] 2).
  apply rejoin_step.
Defined.

(** ** Further properties: closing and sweeping *)

Lemma set_delete_idemp (c : Client) (l : list Client) :
  set_delete c (set_delete c l) = set_delete c l.
Proof.
  unfold set_delete. induction l as [|a l IH]; [done|].
  rewrite (filter_cons _ a l). destruct (decide (a ≠ c)) as [Ha|Ha]; [|done].
  rewrite filter_cons, decide_True by done. by rewrite IH.
Qed.

Lemma state_eq (a b : State) :
  rooms a = rooms b → roomMetadata a = roomMetadata b → socketRoomId a = socketRoomId b →
  a = b.
Proof. destruct a, b. simpl. by intros -> -> ->. Qed.

(** What [close] does to the state: nothing, or [closed_state] at the room
    code stored in the socket. *)
Lemma on_close_state (env : Env) (socket : Client) (st : State) :
  on_close env socket st = (st, [])
  ∨ ∃ k l, socketRoomId st !! socket = Some k ∧ k ≠ "" ∧ rooms st !! k = Some l
           ∧ (on_close env socket st).1 = closed_state socket k st.
Proof.
  destruct (socketRoomId st !! socket) as [k|] eqn:Hb;
    [|left; unfold on_close; by rewrite Hb].
  destruct (truthy (JStr k)) eqn:Ht; [|left; unfold on_close; by rewrite Hb, Ht].
  destruct (rooms st !! k) as [l|] eqn:Hl; [|left; unfold on_close; by rewrite Hb, Ht, Hl].
  right. exists k, l. apply truthy_JStr in Ht.
  rewrite (on_close_bound env socket k st) by eauto. done.
Qed.

(** The state [close] leaves does not depend on the environment. *)
Lemma on_close_fst_env (env1 env2 : Env) (socket : Client) (st : State) :
  (on_close env1 socket st).1 = (on_close env2 socket st).1.
Proof.
  unfold on_close. destruct (socketRoomId st !! socket) as [k|]; [|done].
  destruct (truthy (JStr k)); [|done]. by destruct (rooms st !! k).
Qed.

(** [close] is a no-op for a socket without [roomId] and for one whose room
    has no membership set; it never clears the socket's [roomId]; and a
    second [close] of the same socket leaves the registry as the first one
    left it. *)
Theorem close_again_changes_nothing (env1 env2 : Env) (socket : Client) (st : State) :
  (socketRoomId st !! socket = None → on_close env1 socket st = (st, []))
  ∧ (∀ k, socketRoomId st !! socket = Some k → rooms st !! k = None →
          on_close env1 socket st = (st, []))
  ∧ socketRoomId (on_close env1 socket st).1 = socketRoomId st
  ∧ (on_close env2 socket (on_close env1 socket st).1).1 = (on_close env1 socket st).1.
Proof.
  split_and!.
  - intros Hb. unfold on_close. by rewrite Hb.
  - intros k Hb Hr. unfold on_close. rewrite Hb, Hr. by destruct (truthy (JStr k)).
  - apply on_close_frame.
  - rewrite (on_close_fst_env env2 env1).
    destruct (on_close_state env1 socket st) as [Hnop|(k & l & Hb & Hk & Hl & Hst)].
    + rewrite Hnop. cbn [fst]. by rewrite Hnop.
    + rewrite Hst.
      destruct (on_close_state env1 socket (closed_state socket k st))
        as [->|(k' & l' & Hb' & Hk' & Hl' & ->)]; [done|].
      simpl in Hb'. rewrite Hb in Hb'. injection Hb' as <-.
      apply state_eq; simpl; [|done..].
      apply map_eq. intros k'. destruct (decide (k = k')) as [<-|Hne].
      * rewrite !lookup_alter_eq, Hl. simpl. by rewrite set_delete_idemp.
      * by rewrite !lookup_alter_ne.
Qed.

(** [close] takes at most one entry out of the membership sets: the closing
    socket out of the room its [roomId] names.  Any other socket, and the
    closing socket in a room under another code, stays listed; a room in
    which a socket stays listed is kept, with its metadata, by every sweep
    that follows, whatever the clock says. *)
Theorem close_removes_bound_entry_only (env env' : Env) (socket : Client) (st : State)
    (k : string) (c : Client) :
  c ∈ members k st →
  c ≠ socket ∨ socketRoomId st !! socket ≠ Some k →
  c ∈ members k (on_close env socket st).1
  ∧ rooms (sweep env' (on_close env socket st).1) !! k
    = rooms (on_close env socket st).1 !! k
  ∧ roomMetadata (sweep env' (on_close env socket st).1) !! k = roomMetadata st !! k.
Proof.
  intros Hc Hor.
  assert (c ∈ members k (on_close env socket st).1) as Hstay.
  { destruct (on_close_state env socket st) as [->|(k0 & l & Hb & Hk & Hl & ->)]; [done|].
    unfold members in *. simpl. destruct (decide (k0 = k)) as [->|Hne].
    - rewrite lookup_alter_eq, Hl. rewrite Hl in Hc. simpl in *.
      apply elem_of_set_delete. split; [done|]. by destruct Hor.
    - by rewrite lookup_alter_ne. }
  split; [done|].
  destruct (sweep_keeps_occupied env' (on_close env socket st).1 k) as [Hr Hm].
  { intros Hnil. rewrite Hnil in Hstay. by apply elem_of_nil in Hstay. }
  split; [done|]. rewrite Hm. by destruct (on_close_frame env socket st) as [-> _].
Qed.

Lemma close_removes_bound_entry_only_witness :
  1 ∈ members "ROOMAA" (on_close (env_at 9) 1 rejoin_state).1
  ∧ rooms (sweep (env_at 90000000) (on_close (env_at 9) 1 rejoin_state).1) !! "ROOMAA"
    = rooms (on_close (env_at 9) 1 rejoin_state).1 !! "ROOMAA"
  ∧ roomMetadata (sweep (env_at 90000000) (on_close (env_at 9) 1 rejoin_state).1) !! "ROOMAA"
    = roomMetadata rejoin_state !! "ROOMAA".
Proof.
  apply (close_removes_bound_entry_only (env_at 9) (env_at 90000000) 1 rejoin_state
           "ROOMAA" 1).
  - replace (members "ROOMAA" rejoin_state) with [1] by (vm_compute; reflexivity). left.
  - right. vm_compute. discriminate.
Defined.

(** A sweep only removes entries, never touches a socket's [roomId], and
    leaves nothing for a second sweep at the same or an earlier clock
    reading. *)
Theorem sweep_again_changes_nothing (env1 env2 : Env) (st : State) :
  (now env2 ≤ now env1)%Z →
  sweep env2 (sweep env1 st) = sweep env1 st
  ∧ socketRoomId (sweep env1 st) = socketRoomId st
  ∧ (∀ k l, rooms (sweep env1 st) !! k = Some l → rooms st !! k = Some l)
  ∧ (∀ k m, roomMetadata (sweep env1 st) !! k = Some m → roomMetadata st !! k = Some m).
Proof.
  intros Hle. split_and!.
  - assert (∀ k, rooms (sweep env2 (sweep env1 st)) !! k = rooms (sweep env1 st) !! k
                 ∧ roomMetadata (sweep env2 (sweep env1 st)) !! k
                   = roomMetadata (sweep env1 st) !! k) as Hsame.
    { intros k. pose proof (sweep_lookup env2 (sweep env1 st) k) as H2.
      destruct (roomMetadata (sweep env1 st) !! k) as [m|] eqn:Hm1; [|done].
      destruct (expired (now env2) k m (sweep env1 st)) eqn:He2; [|done].
      exfalso. pose proof (sweep_lookup env1 st k) as H1.
      destruct (sweep_only_removes env1 st k) as (_ & Hm & Hr & _).
      rewrite (Hm m Hm1) in H1.
      destruct (expired (now env1) k m st) eqn:He1.
      - destruct H1 as [_ H1]. congruence.
      - rewrite (expired_ext _ _ _ _ st) in He2 by (apply Hr; by rewrite Hm1).
        apply expired_true_iff in He2 as [Hempty Hlate].
        assert (expired (now env1) k m st = true) as Habs; [|congruence].
        apply expired_true_iff. split; [done | lia]. }
    apply state_eq.
    + apply map_eq. intros k. apply Hsame.
    + apply map_eq. intros k. apply Hsame.
    + unfold sweep. by rewrite !foldl_sweep_room_socketRoomId.
  - apply foldl_sweep_room_socketRoomId.
  - intros k. apply (sweep_only_removes env1 st k).
  - intros k. apply (sweep_only_removes env1 st k).
Qed.

Lemma sweep_again_changes_nothing_witness :
  sweep (env_at 800000) (sweep (env_at 900000) one_room_state)
  = sweep (env_at 900000) one_room_state
  ∧ socketRoomId (sweep (env_at 900000) one_room_state) = socketRoomId one_room_state
  ∧ (∀ k l, rooms (sweep (env_at 900000) one_room_state) !! k = Some l →
            rooms one_room_state !! k = Some l)
  ∧ (∀ k m, roomMetadata (sweep (env_at 900000) one_room_state) !! k = Some m →
            roomMetadata one_room_state !! k = Some m).
Proof.
  apply (sweep_again_changes_nothing (env_at 900000) (env_at 800000) one_room_state).
  simpl. lia.
Defined.

(** Once the sweep has taken an empty room whose last activity is more
    than [expireTime] back, the code is unknown again: a [join-room] and a
    [chat-message] for it are both answered [Room not found] and change
    nothing. *)
Theorem expired_room_is_not_found (env1 env2 : Env) (socket : Client) (st : State)
    (k code content sender : string) (m : Metadata) :
  roomMetadata st !! k = Some m →
  rooms st !! k = None ∨ rooms st !! k = Some [] →
  (now env1 - lastActivity m > expireTime)%Z →
  toUpperCase code = k → code ≠ "" →
  on_message env2 socket (join_room_msg code) (sweep env1 st)
  = Some (sweep env1 st, send env2 socket (ErrorMsg "Room not found"))
  ∧ on_message env2 socket (chat_msg code content sender) (sweep env1 st)
    = Some (sweep env1 st, send env2 socket (ErrorMsg "Room not found")).
Proof.
  intros Hm Hempty Hlate Hup Hcode.
  pose proof (sweep_lookup env1 st k) as H. rewrite Hm in H.
  assert (expired (now env1) k m st = true) as He by (by apply expired_true_iff).
  rewrite He in H. destruct H as [Hr Hmeta]. split.
  - unfold join_room_msg. rewrite on_message_join by done.
    rewrite (join_room_valid _ _ _ code) by done.
    rewrite joinRoom_unknown; [done|]. rewrite Hup. by apply room_known_false.
  - unfold chat_msg. rewrite on_message_chat by done.
    rewrite (chat_message_valid _ _ _ code content sender) by done.
    unfold broadcastChat. by rewrite Hup, Hr.
Qed.

Lemma expired_room_is_not_found_witness :
  on_message (env_at 900001) 2 (join_room_msg "ab12cd")
    (sweep (env_at 900000)
       {| rooms := {[ "AB12CD" := [] ]};
          roomMetadata := {[ "AB12CD" := {| created := 0; lastActivity := 0 |} ]};
          socketRoomId := {[ 1 := "AB12CD" ]} |})
  = Some (sweep (env_at 900000)
            {| rooms := {[ "AB12CD" := [] ]};
               roomMetadata := {[ "AB12CD" := {| created := 0; lastActivity := 0 |} ]};
               socketRoomId := {[ 1 := "AB12CD" ]} |},
          send (env_at 900001) 2 (ErrorMsg "Room not found"))
  ∧ on_message (env_at 900001) 2 (chat_msg "ab12cd" "hi" "bob")
      (sweep (env_at 900000)
         {| rooms := {[ "AB12CD" := [] ]};
            roomMetadata := {[ "AB12CD" := {| created := 0; lastActivity := 0 |} ]};
            socketRoomId := {[ 1 := "AB12CD" ]} |})
    = Some (sweep (env_at 900000)
              {| rooms := {[ "AB12CD" := [] ]};
                 roomMetadata := {[ "AB12CD" := {| created := 0; lastActivity := 0 |} ]};
                 socketRoomId := {[ 1 := "AB12CD" ]} |},
            send (env_at 900001) 2 (ErrorMsg "Room not found")).
Proof.
  apply (expired_room_is_not_found (env_at 900000) (env_at 900001) 2 _ "AB12CD" "ab12cd"
           "hi" "bob" {| created := 0; lastActivity := 0 |}).
  - vm_compute. reflexivity.
  - right. vm_compute. reflexivity.
  - vm_compute. reflexivity.
  - reflexivity.
  - discriminate.
Defined.

(** ** Further properties: the flows of the page *)

(** The page's [createRoom] opens a socket, sends [create-room] with the
    code it generated and closes the socket; [connectToWebSocket] then
    sends [create-room] with the same code on a new socket.  On a code that
    was unknown, the first frame registers the room, the close leaves it
    empty with its metadata and sends nothing, and the second frame adopts
    it: the second socket is the only member, the acknowledgement carries
    the code and [userCount = 1], the metadata is stamped anew, and no other
    room code is touched. *)
Theorem precreate_then_connect (env1 env2 env3 : Env) (s1 s2 : Client) (code : string)
    (st : State) :
  code ≠ "" →
  room_known (toUpperCase code) st = false →
  ∃ st3,
    run [(env1, Message s1 (create_room_msg code));
         (env2, Close s1);
         (env3, Message s2 (create_room_msg code))] st
    = Some (st3, send env1 s1 (RoomCreated (toUpperCase code) 1)
                 ++ send env3 s2 (RoomCreated (toUpperCase code) 1))
    ∧ rooms st3 !! toUpperCase code = Some [s2]
    ∧ roomMetadata st3 !! toUpperCase code
      = Some {| created := now env3; lastActivity := now env3 |}
    ∧ socketRoomId st3 !! s2 = Some (toUpperCase code)
    ∧ ∀ k', k' ≠ toUpperCase code →
        rooms st3 !! k' = rooms st !! k'
        ∧ roomMetadata st3 !! k' = roomMetadata st !! k'.
Proof.
  intros Hcode Hknown. set (k := toUpperCase code) in *.
  assert (k ≠ "") as Hk by (by apply toUpperCase_nonempty).
  pose proof Hknown as [Hrk Hmk]%room_known_false.
  set (st1 := created_state env1 s1 k st).
  set (st2 := closed_state s1 k st1).
  set (st3 := created_state env3 s2 k st2).
  assert (members k st = []) as Hm0 by (unfold members; by rewrite Hrk).
  assert (members k st1 = [s1]) as Hm1.
  { unfold st1. by rewrite members_created_eq, Hm0. }
  assert (set_delete s1 [s1] = []) as Hdel.
  { unfold set_delete. rewrite filter_cons, decide_False by (by intros ?). done. }
  assert (members k st2 = []) as Hm2.
  { unfold st2. by rewrite members_closed_eq, Hm1. }
  assert (members k st3 = [s2]) as Hm3.
  { unfold st3. by rewrite members_created_eq, Hm2. }
  exists st3. split_and!.
  - cbn [run step]. unfold create_room_msg.
    rewrite on_message_create, (create_room_explicit _ _ _ code) by done.
    fold k st1. rewrite Hm0. cbn [mbind option_bind].
    rewrite (on_close_bound env2 s1 k st1); [|by (simpl; rewrite lookup_insert_eq)|done|].
    2:{ unfold st1. simpl. rewrite lookup_add_ensure_eq. done. }
    fold st2. rewrite Hm1, Hdel. cbn [mbind option_bind].
    rewrite on_message_create, (create_room_explicit _ _ _ code) by done.
    fold k st3. rewrite Hm2. cbn [mbind option_bind run].
    assert (set_add s1 [] = [s1]) as -> by done.
    assert (set_add s2 [] = [s2]) as -> by done.
    rewrite decide_False by (simpl; lia). simpl. by rewrite app_nil_r.
  - unfold members in Hm3. destruct (rooms st3 !! k) as [l|] eqn:Hl; [by simpl in Hm3; subst|].
    exfalso. unfold st3 in Hl. simpl in Hl. by rewrite lookup_add_ensure_eq in Hl.
  - unfold st3. simpl. by rewrite lookup_insert_eq.
  - unfold st3. simpl. by rewrite lookup_insert_eq.
  - intros k' Hne. unfold st3, st2, st1. simpl.
    rewrite lookup_add_ensure_ne, lookup_alter_ne, lookup_add_ensure_ne by done.
    by rewrite !lookup_insert_ne.
Qed.

Lemma precreate_then_connect_witness :
  ∃ st3,
    run [(env_at 0, Message 1 (create_room_msg "k7x2pq"));
         (env_at 1, Close 1);
         (env_at 2, Message 2 (create_room_msg "k7x2pq"))] one_room_state
    = Some (st3, send (env_at 0) 1 (RoomCreated (toUpperCase "k7x2pq") 1)
                 ++ send (env_at 2) 2 (RoomCreated (toUpperCase "k7x2pq") 1))
    ∧ rooms st3 !! toUpperCase "k7x2pq" = Some [2]
    ∧ roomMetadata st3 !! toUpperCase "k7x2pq"
      = Some {| created := now (env_at 2); lastActivity := now (env_at 2) |}
    ∧ socketRoomId st3 !! 2 = Some (toUpperCase "k7x2pq")
    ∧ ∀ k', k' ≠ toUpperCase "k7x2pq" →
        rooms st3 !! k' = rooms one_room_state !! k'
        ∧ roomMetadata st3 !! k' = roomMetadata one_room_state !! k'.
Proof.
  apply (precreate_then_connect (env_at 0) (env_at 1) (env_at 2) 1 2 "k7x2pq" one_room_state).
  - discriminate.
  - vm_compute. reflexivity.
Defined.

(** A [join-room] by a socket that is already listed in the room changes no
    membership set: the socket is not listed twice, and the count that is
    broadcast again is the count the room had. *)
Theorem join_again_keeps_members (env : Env) (socket : Client) (message : json)
    (code : string) (st : State) :
  prop message "type" = Some (JStr "join-room") →
  prop message "roomId" = Some (JStr code) →
  code ≠ "" →
  socket ∈ members (toUpperCase code) st →
  ∃ st',
    on_message env socket (Some message) st
    = Some (st', send env socket (JoinedRoom (toUpperCase code))
                 ++ broadcast env (members (toUpperCase code) st)
                      (λ _, UserCountUpdate (length (members (toUpperCase code) st))))
    ∧ rooms st' = rooms st
    ∧ socketRoomId st' !! socket = Some (toUpperCase code).
Proof.
  intros Ht Hr Hcode Hin. set (k := toUpperCase code) in *.
  assert (∃ l, rooms st !! k = Some l ∧ socket ∈ l) as (l & Hl & Hsl).
  { unfold members in Hin. destruct (rooms st !! k) as [l|]; [by exists l|].
    by apply elem_of_nil in Hin. }
  assert (set_add socket (members k st) = members k st) as Hadd.
  { unfold set_add. by rewrite decide_True. }
  rewrite on_message_join, (join_room_valid _ _ _ code) by done.
  rewrite joinRoom_known by (apply room_known_true; left; fold k; by rewrite Hl).
  fold k. rewrite Hadd. eexists. split; [done|]. split.
  - simpl. apply map_eq. intros k'. destruct (decide (k = k')) as [<-|Hne].
    + rewrite lookup_add_ensure_eq, Hl. simpl.
      unfold members in Hadd. rewrite Hl in Hadd. simpl in Hadd. by rewrite Hadd.
    + by rewrite lookup_add_ensure_ne.
  - simpl. by rewrite lookup_insert_eq.
Qed.

Lemma join_again_keeps_members_witness :
  ∃ st',
    on_message (env_at 6) 1
      (Some (JObj [("type", JStr "join-room"); ("roomId", JStr "ab12cd")])) one_room_state
    = Some (st', send (env_at 6) 1 (JoinedRoom (toUpperCase "ab12cd"))
                 ++ broadcast (env_at 6) (members (toUpperCase "ab12cd") one_room_state)
                      (λ _, UserCountUpdate
                              (length (members (toUpperCase "ab12cd") one_room_state))))
    ∧ rooms st' = rooms one_room_state
    ∧ socketRoomId st' !! 1 = Some (toUpperCase "ab12cd").
Proof.
  apply (join_again_keeps_members (env_at 6) 1
           (JObj [("type", JStr "join-room"); ("roomId", JStr "ab12cd")])
           "ab12cd" one_room_state).
  - reflexivity.
  - reflexivity.
  - discriminate.
  - replace (members (toUpperCase "ab12cd") one_room_state) with [1]
      by (vm_compute; reflexivity).
    left.
Defined.

(** After a successful [join-room] under any spelling of a code, a chat
    message the joiner sends with the uppercased code (the [roomCode] the
    page keeps) or any other spelling of it is broadcast over the room it
    joined: every member with an open socket gets it, the joiner's copy and
    no other is flagged [isOwnMessage], and the registry is not changed. *)
Theorem join_then_chat (st : State) (env1 env2 : Env) (socket : Client)
    (code roomId content sender : string) :
  reachable st →
  code ≠ "" →
  is_Some (rooms st !! toUpperCase code) →
  toUpperCase roomId = toUpperCase code →
  isOpen env2 socket = true →
  ∃ st1 out1 out2,
    on_message env1 socket (join_room_msg code) st = Some (st1, out1)
    ∧ on_message env2 socket (chat_msg roomId content sender) st1 = Some (st1, out2)
    ∧ out2 = broadcast env2 (members (toUpperCase code) st1)
               (λ c, ChatMessage content sender (bool_decide (c = socket)))
    ∧ (∀ c, c ∈ members (toUpperCase code) st1 → isOpen env2 c = true →
            (c, ChatMessage content sender (bool_decide (c = socket))) ∈ out2)
    ∧ own_deliveries out2 = [(socket, ChatMessage content sender true)].
Proof.
  intros Hreach Hcode Hroom Hup Hopen. set (k := toUpperCase code) in *.
  set (st1 := joined_state env1 socket k st).
  assert (on_message env1 socket (join_room_msg code) st
          = Some (st1, send env1 socket (JoinedRoom k)
                       ++ broadcast env1 (set_add socket (members k st))
                            (λ _, UserCountUpdate (length (set_add socket (members k st))))))
    as Hjoin.
  { unfold join_room_msg. rewrite on_message_join by done.
    rewrite (join_room_valid _ _ _ code) by done.
    rewrite joinRoom_known; [done|]. apply room_known_true. by left. }
  assert (reachable st1) as Hreach1.
  { by eapply (reachable_step st env1 (Message socket (join_room_msg code))). }
  assert (rooms st1 !! k = Some (members k st1)) as Hl.
  { unfold members, st1. simpl. by rewrite lookup_add_ensure_eq. }
  assert (socket ∈ members k st1) as Hin.
  { unfold st1. rewrite members_joined_eq. apply elem_of_set_add. by left. }
  eexists st1, _, _. split; [done|]. split_and!.
  - unfold chat_msg. rewrite on_message_chat by done.
    rewrite (chat_message_valid _ _ _ roomId content sender) by done.
    rewrite (broadcastChat_delivered _ _ _ _ _ _ (members k st1)); [done|].
    by rewrite Hup.
  - done.
  - intros c Hc Hc_open. by apply elem_of_broadcast.
  - rewrite own_deliveries_broadcast by (by apply NoDup_members, reachable_wf).
    by rewrite decide_True.
Qed.

Lemma join_then_chat_witness :
  ∃ st1 out1 out2,
    on_message (env_at 1) 2 (join_room_msg "ab12cd") one_room_state = Some (st1, out1)
    ∧ on_message (env_at 2) 2 (chat_msg "AB12CD" "hi" "bob") st1 = Some (st1, out2)
    ∧ out2 = broadcast (env_at 2) (members (toUpperCase "ab12cd") st1)
               (λ c, ChatMessage "hi" "bob" (bool_decide (c = 2)))
    ∧ (∀ c, c ∈ members (toUpperCase "ab12cd") st1 → isOpen (env_at 2) c = true →
            (c, ChatMessage "hi" "bob" (bool_decide (c = 2))) ∈ out2)
    ∧ own_deliveries out2 = [(2, ChatMessage "hi" "bob" true)].
Proof.
  apply (join_then_chat one_room_state (env_at 1) (env_at 2) 2 "ab12cd" "AB12CD" "hi" "bob").
  - apply one_room_reachable.
  - discriminate.
  - vm_compute. eexists. reflexivity.
  - reflexivity.
  - reflexivity.
Defined.

(** The code the page generates for a new room is the key under which the
    server registers it: a [create-room] carrying a string made by
    [generateShortCode] creates or adopts the room under that very string
    and acknowledges it with the same string, so the code shown on the
    page's [room-created] screen is the one a [join-room] finds under any
    spelling of its letters. *)
Theorem generated_code_is_registered (env : Env) (socket : Client) (ds rest : list nat)
    (code : string) (st : State) :
  generateShortCode ds = Some (code, rest) →
  ∃ st' n,
    on_message env socket (create_room_msg code) st
    = Some (st', send env socket (RoomCreated code n))
    ∧ rooms st' !! code = Some (set_add socket (members code st))
    ∧ socketRoomId st' !! socket = Some code
    ∧ ∀ spelling, toUpperCase spelling = code → room_known (toUpperCase spelling) st' = true.
Proof.
  intros Hg.
  destruct (generateShortCode_canonical _ _ _ Hg) as [Hup _].
  assert (code ≠ "") as Hne.
  { apply generateShortCode_length in Hg. by intros ->. }
  eexists _, _. split.
  { unfold create_room_msg. rewrite on_message_create by done.
    rewrite (create_room_explicit _ _ _ code) by done. rewrite Hup. done. }
  simpl. split_and!.
  - by rewrite lookup_add_ensure_eq.
  - by rewrite lookup_insert_eq.
  - intros spelling Hs. rewrite Hs. apply room_known_true. left. simpl.
    by rewrite lookup_add_ensure_eq.
Qed.

Lemma generated_code_is_registered_witness :
  ∃ st' n,
    on_message (env_at 3) 7 (create_room_msg "AB019A") one_room_state
    = Some (st', send (env_at 3) 7 (RoomCreated "AB019A" n))
    ∧ rooms st' !! "AB019A" = Some (set_add 7 (members "AB019A" one_room_state))
    ∧ socketRoomId st' !! 7 = Some "AB019A"
    ∧ ∀ spelling, toUpperCase spelling = "AB019A" →
                  room_known (toUpperCase spelling) st' = true.
Proof.
  apply (generated_code_is_registered (env_at 3) 7 [0; 1; 26; 27; 35; 36; 7] [7]
           "AB019A" one_room_state).
  vm_compute. reflexivity.
Defined.

(** ** Further properties: what the page shows *)

Lemma inbox_app (c : Client) (a b : list (Client * ServerMsg)) :
  inbox c (a ++ b) = inbox c a ++ inbox c b.
Proof. unfold inbox. by rewrite filter_app, fmap_app. Qed.

Lemma inbox_send (env : Env) (c c' : Client) (m : ServerMsg) :
  inbox c (send env c' m) = if decide (c' = c ∧ isOpen env c' = true) then [m] else [].
Proof.
  unfold inbox, send. destruct (isOpen env c') eqn:Hopen.
  - rewrite filter_cons. simpl. destruct (decide (c' = c)) as [->|Hne].
    + by rewrite decide_True.
    + by rewrite decide_False by (by intros [? _]).
  - by rewrite decide_False by (by intros [_ ?]).
Qed.

Lemma inbox_broadcast (env : Env) (c : Client) (l : list Client) (f : Client → ServerMsg) :
  NoDup l →
  inbox c (broadcast env l f) = if decide (c ∈ l ∧ isOpen env c = true) then [f c] else [].
Proof.
  induction l as [|a l IH]; intros Hnd.
  - rewrite decide_False; [done|]. intros [?%elem_of_nil _]. done.
  - apply NoDup_cons in Hnd as [Ha Hnd].
    rewrite broadcast_cons, inbox_app, inbox_send, (IH Hnd). clear IH.
    destruct (decide (a = c)) as [->|Hne].
    + rewrite (decide_False (P := c ∈ l ∧ _)) by (by intros [? _]).
      destruct (isOpen env c) eqn:Hopen.
      * rewrite decide_True by done. rewrite decide_True by (split; [left|done]). done.
      * rewrite decide_False by (by intros [_ ?]).
        rewrite decide_False by (by intros [_ ?]). done.
    + rewrite (decide_False (P := a = c ∧ _)) by (by intros [? _]). simpl.
      apply decide_ext. rewrite elem_of_cons.
      split; [intros [? ?]; split; [by right|done] | intros [[?|?] ?]; [congruence|done]].
Qed.

(** After a successful [join-room] the page of the joiner ends on the chat
    screen showing the server's count.  The joiner's socket, when open, gets
    exactly [joined-room] followed by one [user-count-update]; the
    [joined-room] case of the page sets the count to 2 and the update that
    follows replaces it by the number of members of the room.  Every other
    member with an open socket gets exactly one [user-count-update], and
    either [onmessage] handler of the page then shows that same number. *)
Theorem joiner_page_shows_room_size (st : State) (env : Env) (socket : Client)
    (message : json) (code : string) (ui : UI) :
  reachable st →
  prop message "type" = Some (JStr "join-room") →
  prop message "roomId" = Some (JStr code) →
  code ≠ "" →
  is_Some (rooms st !! toUpperCase code) →
  isOpen env socket = true →
  ∃ st' out,
    on_message env socket (Some message) st = Some (st', out)
    ∧ inbox socket out
      = [JoinedRoom (toUpperCase code);
         UserCountUpdate (length (members (toUpperCase code) st'))]
    ∧ foldl joiner_onmessage ui (inbox socket out)
      = {| currentScreen := ScreenChat;
           roomCode := roomCode ui;
           messages := messages ui;
           error := error ui;
           userCount := length (members (toUpperCase code) st') |}
    ∧ ∀ c ui', c ≠ socket → c ∈ members (toUpperCase code) st' → isOpen env c = true →
        inbox c out = [UserCountUpdate (length (members (toUpperCase code) st'))]
        ∧ userCount (foldl creator_onmessage ui' (inbox c out))
          = length (members (toUpperCase code) st')
        ∧ userCount (foldl joiner_onmessage ui' (inbox c out))
          = length (members (toUpperCase code) st').
Proof.
  intros Hreach Ht Hr Hcode Hroom Hopen. set (k := toUpperCase code) in *.
  rewrite on_message_join, (join_room_valid _ _ _ code) by done.
  rewrite joinRoom_known by (apply room_known_true; by left).
  fold k. eexists _, _. split; [done|]. rewrite members_joined_eq.
  set (l := set_add socket (members k st)).
  assert (NoDup l) as Hnd by (by apply NoDup_set_add, NoDup_members, reachable_wf).
  assert (socket ∈ l) as Hin by (apply elem_of_set_add; by left).
  assert ((length l =? 0) = false) as Hpos.
  { apply Nat.eqb_neq. destruct l; [by apply elem_of_nil in Hin | done]. }
  split_and!.
  - rewrite inbox_app, inbox_send, inbox_broadcast by done.
    by rewrite !decide_True by done.
  - rewrite inbox_app, inbox_send, inbox_broadcast by done.
    rewrite !decide_True by done. simpl. by rewrite Hpos.
  - intros c ui' Hne Hc Hc_open.
    rewrite inbox_app, inbox_send, inbox_broadcast by done.
    rewrite decide_False by (intros [? _]; congruence).
    rewrite decide_True by done. simpl. by rewrite Hpos.
Qed.

Lemma joiner_page_shows_room_size_witness :
  ∃ st' out,
    on_message (env_at 1) 2
      (Some (JObj [("type", JStr "join-room"); ("roomId", JStr "ab12cd")])) one_room_state
    = Some (st', out)
    ∧ inbox 2 out
      = [JoinedRoom (toUpperCase "ab12cd");
         UserCountUpdate (length (members (toUpperCase "ab12cd") st'))]
    ∧ foldl joiner_onmessage
        {| currentScreen := ScreenWelcome; roomCode := "AB12CD"; messages := [];
           error := None; userCount := 1 |} (inbox 2 out)
      = {| currentScreen := ScreenChat;
           roomCode := "AB12CD";
           messages := [];
           error := None;
           userCount := length (members (toUpperCase "ab12cd") st') |}
    ∧ ∀ c ui', c ≠ 2 → c ∈ members (toUpperCase "ab12cd") st' → isOpen (env_at 1) c = true →
        inbox c out = [UserCountUpdate (length (members (toUpperCase "ab12cd") st'))]
        ∧ userCount (foldl creator_onmessage ui' (inbox c out))
          = length (members (toUpperCase "ab12cd") st')
        ∧ userCount (foldl joiner_onmessage ui' (inbox c out))
          = length (members (toUpperCase "ab12cd") st').
Proof.
  apply (joiner_page_shows_room_size one_room_state (env_at 1) 2
           (JObj [("type", JStr "join-room"); ("roomId", JStr "ab12cd")]) "ab12cd"
           {| currentScreen := ScreenWelcome; roomCode := "AB12CD"; messages := [];
              error := None; userCount := 1 |}).
  - apply one_room_reachable.
  - reflexivity.
  - reflexivity.
  - discriminate.
  - vm_compute. eexists. reflexivity.
  - reflexivity.
Defined.

(** A [create-room] with the code of a room that has members adopts the
    room without telling anyone but the caller: the caller is appended to
    the members, the only frame is [room-created] to the caller with the
    new size, and no other socket gets a frame.  The page of the caller
    takes the code from the frame and shows a count of 1 whatever size the
    frame carries, so it shows less than the server's count whenever the
    room had a member. *)
Theorem create_adopts_without_notice (env : Env) (socket : Client) (message : json)
    (code : string) (st : State) (l : list Client) (ui : UI) :
  prop message "type" = Some (JStr "create-room") →
  prop message "roomId" = Some (JStr code) →
  code ≠ "" →
  rooms st !! toUpperCase code = Some l →
  socket ∉ l →
  ∃ st' out,
    on_message env socket (Some message) st = Some (st', out)
    ∧ out = send env socket (RoomCreated (toUpperCase code) (S (length l)))
    ∧ rooms st' !! toUpperCase code = Some (l ++ [socket])
    ∧ (∀ c, c ≠ socket → inbox c out = [])
    ∧ roomCode (creator_onmessage ui (RoomCreated (toUpperCase code) (S (length l))))
      = toUpperCase code
    ∧ userCount (creator_onmessage ui (RoomCreated (toUpperCase code) (S (length l)))) = 1
    ∧ (l ≠ [] →
       userCount (creator_onmessage ui (RoomCreated (toUpperCase code) (S (length l))))
       < S (length l)).
Proof.
  intros Ht Hr Hcode Hl Hnin. set (k := toUpperCase code) in *.
  assert (k ≠ "") as Hk by (by apply toUpperCase_nonempty).
  assert (set_add socket (members k st) = l ++ [socket]) as Hadd.
  { unfold members. rewrite Hl. simpl. unfold set_add. by rewrite decide_False. }
  rewrite on_message_create, (create_room_explicit _ _ _ code) by done.
  fold k. rewrite Hadd, length_app. simpl.
  replace (length l + 1) with (S (length l)) by lia.
  eexists _, _. split; [done|]. split_and!.
  - done.
  - simpl. rewrite lookup_add_ensure_eq. fold (members k st). by rewrite Hadd.
  - intros c Hne. rewrite inbox_send. by rewrite decide_False by (intros [? _]; congruence).
  - unfold creator_onmessage. cbn [roomCode].
    change (negb (k =? "")%string) with (truthy (JStr k)).
    apply truthy_JStr in Hk. by rewrite Hk.
  - done.
  - intros Hne. destruct l; [done | simpl; lia].
Qed.

Lemma create_adopts_without_notice_witness :
  ∃ st' out,
    on_message (env_at 4) 2
      (Some (JObj [("type", JStr "create-room"); ("roomId", JStr "AB12CD")])) one_room_state
    = Some (st', out)
    ∧ out = send (env_at 4) 2 (RoomCreated (toUpperCase "AB12CD") (S (length [1])))
    ∧ rooms st' !! toUpperCase "AB12CD" = Some ([1] ++ [2])
    ∧ (∀ c, c ≠ 2 → inbox c out = [])
    ∧ roomCode (creator_onmessage
                  {| currentScreen := ScreenChat; roomCode := "AB12CD"; messages := [];
                     error := None; userCount := 1 |}
                  (RoomCreated (toUpperCase "AB12CD") (S (length [1]))))
      = toUpperCase "AB12CD"
    ∧ userCount (creator_onmessage
                   {| currentScreen := ScreenChat; roomCode := "AB12CD"; messages := [];
                      error := None; userCount := 1 |}
                   (RoomCreated (toUpperCase "AB12CD") (S (length [1])))) = 1
    ∧ ([1] ≠ [] →
       userCount (creator_onmessage
                    {| currentScreen := ScreenChat; roomCode := "AB12CD"; messages := [];
                       error := None; userCount := 1 |}
                    (RoomCreated (toUpperCase "AB12CD") (S (length [1]))))
       < S (length [1])).
Proof.
  apply (create_adopts_without_notice (env_at 4) 2
           (JObj [("type", JStr "create-room"); ("roomId", JStr "AB12CD")]) "AB12CD"
           one_room_state [1]).
  - reflexivity.
  - reflexivity.
  - discriminate.
  - vm_compute. reflexivity.
  - intros H. apply list_elem_of_singleton in H. discriminate H.
Defined.

(** ** Further properties: validation, order of delivery, the expiry window *)

(** The reply [Invalid message] is the reply to what is not a JSON object
    or array, and to nothing else: a frame that does not parse, or parses
    to [null], a boolean, a number or a string, gets it and changes
    nothing; an array or an object never gets it (an array, having no
    [type], is answered [Unknown message type]). *)
Theorem invalid_message_iff (env : Env) (socket : Client) (data : option json)
    (st st' : State) (out : list (Client * ServerMsg)) :
  isOpen env socket = true →
  on_message env socket data st = Some (st', out) →
  ((socket, ErrorMsg "Invalid message") ∈ out
   ↔ match data with Some v => is_object v = false | None => True end)
  ∧ (match data with Some v => is_object v = false | None => True end →
     st' = st ∧ out = [(socket, ErrorMsg "Invalid message")])
  ∧ (∀ items, data = Some (JArr items) →
     st' = st ∧ out = [(socket, ErrorMsg "Unknown message type")]).
Proof.
  intros Hopen Hstep.
  assert (send env socket (ErrorMsg "Invalid message")
          = [(socket, ErrorMsg "Invalid message")]) as Hsend
    by (unfold send; by rewrite Hopen).
  assert (match data with Some v => is_object v = false | None => True end →
          st' = st ∧ out = [(socket, ErrorMsg "Invalid message")]) as Hbad.
  { assert (∀ v, is_object v = false →
                 negb (truthy v) || negb (String.eqb (typeof v) "object") = true) as Hrej.
    { intros [] Hv; try done; simpl; apply orb_true_r. }
    intros Hd. revert Hstep. unfold on_message.
    destruct data as [v|]; [rewrite (Hrej v Hd)|]; rewrite Hsend; by intros [= <- <-]. }
  split_and!; [|done|].
  - split; [|intros [_ ->]%Hbad; left].
    intros Hin. destruct data as [v|]; [|done].
    destruct (is_object v) eqn:Hobj; [|done]. exfalso.
    assert (negb (truthy v) || negb (String.eqb (typeof v) "object") = false) as Hok
      by (by destruct v).
    revert Hstep Hin. unfold on_message. rewrite Hok.
    assert (∀ e, e ≠ "Invalid message" →
                 Some (st, send env socket (ErrorMsg e)) = Some (st', out) →
                 (socket, ErrorMsg "Invalid message") ∈ out → False) as Herr.
    { intros e He [= _ <-] (_ & [= ?] & _)%elem_of_send. done. }
    destruct (prop v "type") as [[| | |t| |]|]; try by apply Herr.
    destruct (String.eqb t "create-room").
    { intros (k & _ & _ & _ & ->)%create_room_canonical (_ & [=] & _)%elem_of_send. }
    destruct (String.eqb t "join-room").
    { unfold join_room.
      destruct (prop v "roomId") as [[| | |code| |]|]; try by apply Herr.
      destruct (truthy (JStr code)); simpl; [|by apply Herr].
      destruct (room_known (toUpperCase code) st) eqn:Hk.
      - rewrite joinRoom_known by done. intros [= _ <-].
        intros [(_ & [=] & _)%elem_of_send|(_ & _ & [=])%elem_of_broadcast]%elem_of_app.
      - rewrite joinRoom_unknown by done. by apply Herr. }
    destruct (String.eqb t "chat-message"); [|by apply Herr].
    destruct (chat_message_cases env socket v st) as [->|(r & c & s & _ & _ & _ & ->)];
      [by apply Herr|].
    unfold broadcastChat. destruct (rooms st !! toUpperCase r); [|by apply Herr].
    intros [= _ <-] (_ & _ & [=])%elem_of_broadcast.
  - intros items ->. revert Hstep. unfold on_message, send. simpl. rewrite Hopen.
    by intros [= <- <-].
Qed.

Lemma invalid_message_iff_witness :
  ((3, ErrorMsg "Invalid message") ∈ [(3, ErrorMsg "Invalid message")]
   ↔ match Some JNull with Some v => is_object v = false | None => True end)
  ∧ (match Some JNull with Some v => is_object v = false | None => True end →
     one_room_state = one_room_state ∧ [(3, ErrorMsg "Invalid message")]
                                      = [(3, ErrorMsg "Invalid message")])
  ∧ (∀ items, Some JNull = Some (JArr items) →
     one_room_state = one_room_state
     ∧ [(3, ErrorMsg "Invalid message")] = [(3, ErrorMsg "Unknown message type")]).
Proof.
  apply (invalid_message_iff (env_at 0) 3 (Some JNull) one_room_state one_room_state
           [(3, ErrorMsg "Invalid message")]).
  - reflexivity.
  - vm_compute. reflexivity.
Defined.

Lemma broadcast_filter (env : Env) (l : list Client) (f : Client → ServerMsg) :
  broadcast env l f = (λ c, (c, f c)) <$> filter (λ c, isOpen env c = true) l.
Proof.
  induction l as [|a l IH]; [done|].
  rewrite broadcast_cons, IH, filter_cons. unfold send.
  destruct (isOpen env a) eqn:Ha.
  - by rewrite decide_True.
  - by rewrite decide_False by (by intros ?).
Qed.

(** A chat broadcast goes through the membership set in the order in which
    the sockets were added to it: the recipients are the members with an
    open socket, each once, in that order; a member whose socket is not
    open is skipped and the members after it are still served. *)
Theorem chat_in_join_order (st : State) (env : Env) (socket : Client)
    (roomId content sender : string) (l : list Client) :
  reachable st →
  rooms st !! toUpperCase roomId = Some l →
  ∃ out,
    on_message env socket (chat_msg roomId content sender) st = Some (st, out)
    ∧ out.*1 = filter (λ c, isOpen env c = true) l
    ∧ NoDup out.*1
    ∧ length out = length (filter (λ c, isOpen env c = true) l).
Proof.
  intros Hreach Hl. eexists. split.
  { unfold chat_msg. rewrite on_message_chat by done.
    rewrite (chat_message_valid _ _ _ roomId content sender) by done.
    by rewrite (broadcastChat_delivered _ _ _ _ _ _ l). }
  rewrite broadcast_filter.
  assert (((λ c, (c, ChatMessage content sender (bool_decide (c = socket))))
             <$> filter (λ c, isOpen env c = true) l).*1
          = filter (λ c, isOpen env c = true) l) as Hfst.
  { rewrite <- list_fmap_compose. apply list_fmap_id. }
  rewrite Hfst. split_and!; [done| |by rewrite length_fmap].
  apply NoDup_filter. apply reachable_wf in Hreach as (Hnd & _). by eapply Hnd.
Qed.

Lemma chat_in_join_order_witness :
  ∃ out,
    on_message {| now := 4; isOpen := λ c, bool_decide (c ≠ 1); draws := [] |} 3
      (chat_msg "roomaa" "hi" "cy") crossed_state
    = Some (crossed_state, out)
    ∧ out.*1 = filter (λ c, isOpen {| now := 4; isOpen := λ c, bool_decide (c ≠ 1);
                                      draws := [] |} c = true) [1; 3]
    ∧ NoDup out.*1
    ∧ length out
      = length (filter (λ c, isOpen {| now := 4; isOpen := λ c, bool_decide (c ≠ 1);
                                       draws := [] |} c = true) [1; 3]).
Proof.
  apply (chat_in_join_order crossed_state
           {| now := 4; isOpen := λ c, bool_decide (c ≠ 1); draws := [] |} 3
           "roomaa" "hi" "cy" [1; 3]).
  - apply crossed_reachable.
  - vm_compute. reflexivity.
Defined.

Lemma run_closes_metadata (trace : list (Env * Event)) (st st' : State)
    (out : list (Client * ServerMsg)) :
  forallb is_close trace = true →
  run trace st = Some (st', out) →
  roomMetadata st' = roomMetadata st
  ∧ ∀ k, is_Some (rooms st' !! k) ↔ is_Some (rooms st !! k).
Proof.
  revert st out. induction trace as [|[env ev] trace IH]; intros st out Hall; simpl.
  - by intros [= <- _].
  - simpl in Hall. apply andb_true_iff in Hall as [Hev Hall].
    destruct ev as [| socket |]; try done. cbn [run].
    intros H. apply bind_Some in H as ([st1 out1] & Hstep & H).
    apply bind_Some in H as ([st2 out2] & Hrun & [= <- _]).
    cbn [step] in Hstep. injection Hstep as Hc.
    destruct (IH _ _ Hall Hrun) as [-> Hsome].
    destruct (on_close_frame env socket st) as (Hm & _ & Hr).
    rewrite Hc in Hm, Hr. cbn [fst] in Hm, Hr.
    split; [done|]. intros k. rewrite Hsome.
    destruct (Hr k) as [->|(l & Hl & ->)]; [done|]. rewrite Hl. by split.
Qed.

(** Closing sockets never shortens the life of a room: the expiry window
    runs from [lastActivity], the time of the last [create-room] or
    [join-room].  Whatever sockets close, in whatever order, a sweep that
    runs no later than [expireTime] after [lastActivity] keeps the room's
    metadata and membership set, and a [join-room] after it succeeds. *)
Theorem room_survives_closes_within_window (st : State) (trace : list (Env * Event))
    (st' : State) (out : list (Client * ServerMsg)) (env env2 : Env) (joiner : Client)
    (k code : string) (m : Metadata) :
  reachable st →
  roomMetadata st !! k = Some m →
  forallb is_close trace = true →
  run trace st = Some (st', out) →
  (now env - lastActivity m ≤ expireTime)%Z →
  toUpperCase code = k → code ≠ "" →
  roomMetadata (sweep env st') !! k = Some m
  ∧ is_Some (rooms (sweep env st') !! k)
  ∧ ∃ st2 rest,
      on_message env2 joiner (join_room_msg code) (sweep env st')
      = Some (st2, send env2 joiner (JoinedRoom k) ++ rest)
      ∧ joiner ∈ members k st2.
Proof.
  intros Hreach Hm Hall Hrun Hwin Hup Hcode.
  destruct (run_closes_metadata _ _ _ _ Hall Hrun) as [Hmeta Hsome].
  assert (is_Some (rooms st !! k)) as Hroom.
  { apply reachable_registry_inv in Hreach as (Hagree & _). apply Hagree. eauto. }
  pose proof (sweep_lookup env st' k) as H. rewrite Hmeta, Hm in H.
  destruct (expired (now env) k m st') eqn:He.
  { apply expired_true_iff in He as [_ He]. lia. }
  destruct H as [Hr Hm']. split; [done|].
  assert (is_Some (rooms (sweep env st') !! k)) as Hroom' by (rewrite Hr; by apply Hsome).
  split; [done|].
  unfold join_room_msg. rewrite on_message_join by done.
  rewrite (join_room_valid _ _ _ code) by done.
  rewrite joinRoom_known by (rewrite Hup; apply room_known_true; by left).
  rewrite Hup. eexists _, _. split; [done|].
  rewrite members_joined_eq. apply elem_of_set_add. by left.
Qed.

Lemma room_survives_closes_within_window_witness :
  roomMetadata (sweep (env_at 600000) (on_close (env_at 9) 1 rejoin_state).1) !! "ROOMAA"
  = Some {| created := 0; lastActivity := 0 |}
  ∧ is_Some (rooms (sweep (env_at 600000) (on_close (env_at 9) 1 rejoin_state).1) !! "ROOMAA")
  ∧ ∃ st2 rest,
      on_message (env_at 600001) 5 (join_room_msg "roomaa")
        (sweep (env_at 600000) (on_close (env_at 9) 1 rejoin_state).1)
      = Some (st2, send (env_at 600001) 5 (JoinedRoom "ROOMAA") ++ rest)
      ∧ 5 ∈ members "ROOMAA" st2.
Proof.
  apply (room_survives_closes_within_window rejoin_state [(env_at 9, Close 1)]
           (on_close (env_at 9) 1 rejoin_state).1
           ((on_close (env_at 9) 1 rejoin_state).2 ++ [])
           (env_at 600000) (env_at 600001) 5 "ROOMAA" "roomaa"
           {| created := 0; lastActivity := 0 |}).
  - apply rejoin_reachable.
  - vm_compute. reflexivity.
  - reflexivity.
  - vm_compute. reflexivity.
  - vm_compute. discriminate.
  - reflexivity.
  - discriminate.
Defined.

(** A [join-room] for a code the server does not know brings the joiner's
    page back to the welcome screen: the joiner's open socket receives
    exactly the error [Room not found], and the [error] case of the page
    shows that text, clears [roomCode] and leaves the messages and the
    count as they were; the registry is unchanged and nobody else gets a
    frame. *)
Theorem joiner_page_on_unknown_room (env : Env) (socket : Client) (message : json)
    (code : string) (st : State) (ui : UI) :
  prop message "type" = Some (JStr "join-room") →
  prop message "roomId" = Some (JStr code) →
  code ≠ "" →
  rooms st !! toUpperCase code = None →
  roomMetadata st !! toUpperCase code = None →
  isOpen env socket = true →
  ∃ out,
    on_message env socket (Some message) st = Some (st, out)
    ∧ inbox socket out = [ErrorMsg "Room not found"]
    ∧ (∀ c, c ≠ socket → inbox c out = [])
    ∧ foldl joiner_onmessage ui (inbox socket out)
      = {| currentScreen := ScreenWelcome;
           roomCode := "";
           messages := messages ui;
           error := Some "Room not found";
           userCount := userCount ui |}.
Proof.
  intros Ht Hr Hcode Hrooms Hmeta Hopen.
  rewrite on_message_join, (join_room_valid _ _ _ code) by done.
  rewrite joinRoom_unknown by (by apply room_known_false).
  eexists. split; [done|].
  assert (inbox socket (send env socket (ErrorMsg "Room not found"))
          = [ErrorMsg "Room not found"]) as Hbox.
  { rewrite inbox_send. by rewrite decide_True. }
  split_and!.
  - done.
  - intros c Hne. rewrite inbox_send. by rewrite decide_False by (intros [? _]; congruence).
  - by rewrite Hbox.
Qed.

Lemma joiner_page_on_unknown_room_witness :
  ∃ out,
    on_message (env_at 7) 9
      (Some (JObj [("type", JStr "join-room"); ("roomId", JStr "zz99zz")])) one_room_state
    = Some (one_room_state, out)
    ∧ inbox 9 out = [ErrorMsg "Room not found"]
    ∧ (∀ c, c ≠ 9 → inbox c out = [])
    ∧ foldl joiner_onmessage
        {| currentScreen := ScreenWelcome; roomCode := "ZZ99ZZ"; messages := [];
           error := None; userCount := 1 |} (inbox 9 out)
      = {| currentScreen := ScreenWelcome;
           roomCode := "";
           messages := [];
           error := Some "Room not found";
           userCount := 1 |}.
Proof.
  apply (joiner_page_on_unknown_room (env_at 7) 9
           (JObj [("type", JStr "join-room"); ("roomId", JStr "zz99zz")]) "zz99zz"
           one_room_state
           {| currentScreen := ScreenWelcome; roomCode := "ZZ99ZZ"; messages := [];
              error := None; userCount := 1 |}).
  - reflexivity.
  - reflexivity.
  - discriminate.
  - vm_compute. reflexivity.
  - vm_compute. reflexivity.
  - reflexivity.
Defined.

(** A chat message sent to a room appears once on the page of every member
    with an open socket: the member's socket receives exactly one
    [chat-message] frame, flagged [isOwnMessage] exactly for the sender, and
    either [onmessage] handler of the page appends that frame to its
    messages and changes nothing else; a socket that is not listed in the
    room receives nothing. *)
Theorem chat_shown_once_per_member (st : State) (env : Env) (socket : Client)
    (roomId content sender : string) (l : list Client) (c : Client) (ui : UI) :
  reachable st →
  rooms st !! toUpperCase roomId = Some l →
  ∃ out,
    on_message env socket (chat_msg roomId content sender) st = Some (st, out)
    ∧ (c ∈ l → isOpen env c = true →
       inbox c out = [ChatMessage content sender (bool_decide (c = socket))]
       ∧ foldl creator_onmessage ui (inbox c out)
         = {| currentScreen := currentScreen ui;
              roomCode := roomCode ui;
              messages := messages ui
                          ++ [ChatMessage content sender (bool_decide (c = socket))];
              error := error ui;
              userCount := userCount ui |}
       ∧ foldl joiner_onmessage ui (inbox c out)
         = foldl creator_onmessage ui (inbox c out))
    ∧ (c ∉ l → inbox c out = []).
Proof.
  intros Hreach Hl. eexists. split.
  { unfold chat_msg. rewrite on_message_chat by done.
    rewrite (chat_message_valid _ _ _ roomId content sender) by done.
    by rewrite (broadcastChat_delivered _ _ _ _ _ _ l). }
  assert (NoDup l) as Hnd.
  { apply reachable_wf in Hreach as (Hnd & _). by eapply Hnd. }
  rewrite inbox_broadcast by done. split.
  - intros Hc Hopen. by rewrite decide_True.
  - intros Hc. by rewrite decide_False by (by intros [? _]).
Qed.

Lemma chat_shown_once_per_member_witness :
  ∃ out,
    on_message (env_at 4) 3 (chat_msg "ROOMAA" "hi" "cy") crossed_state
    = Some (crossed_state, out)
    ∧ (1 ∈ [1; 3] → isOpen (env_at 4) 1 = true →
       inbox 1 out = [ChatMessage "hi" "cy" (bool_decide (1 = 3))]
       ∧ foldl creator_onmessage
           {| currentScreen := ScreenChat; roomCode := "ROOMAA"; messages := [];
              error := None; userCount := 2 |} (inbox 1 out)
         = {| currentScreen := ScreenChat;
              roomCode := "ROOMAA";
              messages := [] ++ [ChatMessage "hi" "cy" (bool_decide (1 = 3))];
              error := None;
              userCount := 2 |}
       ∧ foldl joiner_onmessage
           {| currentScreen := ScreenChat; roomCode := "ROOMAA"; messages := [];
              error := None; userCount := 2 |} (inbox 1 out)
         = foldl creator_onmessage
             {| currentScreen := ScreenChat; roomCode := "ROOMAA"; messages := [];
                error := None; userCount := 2 |} (inbox 1 out))
    ∧ (1 ∉ [1; 3] → inbox 1 out = []).
Proof.
  apply (chat_shown_once_per_member crossed_state (env_at 4) 3 "ROOMAA" "hi" "cy" [1; 3] 1
           {| currentScreen := ScreenChat; roomCode := "ROOMAA"; messages := [];
              error := None; userCount := 2 |}).
  - apply crossed_reachable.
  - vm_compute. reflexivity.
Defined.
